(** * HybridClipStorage: a two-tier clip store (memory map + optional Redis)

    A shallow embedding of [services/hybridClipStorage.ts] and the
    properties of its create / read / peek / delete protocol.

    Conventions of the embedding.
    - Instants ([Date], [Date.now()]) are milliseconds since the epoch, in [Z];
      [new Date() > clip.expiresAt] is the comparison of those numbers.
    - [number] fields are [Z]; an optional field is an [option].
    - The JavaScript [Map] [memoryClips] is a [gmap string Clip].  Every value
      of that map is a distinct object (one is allocated per [createClip] and
      per [getFromRedis]), so the in-place [clip.accessCount++] followed by
      [memoryClips.set(token, clip)] is the replacement of the value stored
      under [token].  The object returned by [getClip] is a snapshot of the
      stored object at the time of the return.
    - The Redis server is an external key-value service; its keyspace is the
      finite map behind the client handle.  A value written by [setex] is the
      JSON text of a clip, read back by [JSON.parse] with the two dates
      rebuilt; that round trip is the identity on every field of [Clip], so a
      stored value is kept as the [Clip] itself.
    - A Redis command either completes or raises.  Which commands raise during
      one call of the store is an input of that call ([RedisFaults]); raised
      errors travel through an exception monad and are caught exactly where
      the source has [try]/[catch].
    - Each [async] method is run as one atomic step.
    - The methods of the store are written for instants that are valid
      [Date]s, on which [toISOString] returns.  The one statement of the
      store that formats a date outside any [try] is the log line of
      [createClip]; module [Dated] writes [createClip] out with that line and
      with the range of [Date]. *)

From stdpp Require Import gmap strings list fin_maps.
From Stdlib Require Import ZArith Lia.

Open Scope Z_scope.

(** ** Data model *)

Inductive ContentType := text | url | code.

Record Clip := mkClip {
  id : string;
  content : string;
  contentType : ContentType;
  createdAt : Z;
  expiresAt : Z;
  accessCount : Z;
  maxAccess : option Z;
  password : option string;
  burnAfterReading : bool
}.

Record CreateClipOptions := mkOptions {
  opt_content : string;
  opt_contentType : option ContentType;
  opt_expirationMinutes : option Z;
  opt_password : option string;
  opt_burnAfterReading : option bool;
  opt_maxAccess : option Z
}.

Record StorageStats := mkStats {
  totalClips : Z;
  activeClips : Z;
  expiredClips : Z;
  oldestClip : option Z;
  totalAccesses : Z;
  stat_redisConnected : bool;
  stat_memoryClips : Z;
  redisClips : Z
}.

(** The result of [getClipInfo]: [Pick<Clip, "createdAt" | "expiresAt" |
    "accessCount" | "contentType">]. *)
Record ClipInfo := mkInfo {
  info_createdAt : Z;
  info_expiresAt : Z;
  info_accessCount : Z;
  info_contentType : ContentType
}.

(** What [redis.setex(key, ttl, value)] leaves on the server. *)
Record RedisEntry := mkEntry {
  ttl : Z;
  value : Clip
}.

(** The fields of a [HybridClipStorage] instance, with the keyspace of the
    server that the client handle [redis] talks to ([None] is [null]). *)
Record Store := mkStore {
  memoryClips : gmap string Clip;
  redis : option (gmap string RedisEntry);
  redisConnected : bool
}.

(** Which Redis commands raise during one call of the store. *)
Record RedisFaults := mkFaults {
  get_fails : bool;
  setex_fails : bool;
  del_fails : bool;
  keys_fails : bool
}.

Definition no_faults : RedisFaults := mkFaults false false false false.

(** ** JavaScript truthiness of the optional fields *)

Definition truthy_string (s : option string) : bool :=
  match s with
  | Some s => negb (String.eqb s "")
  | None => false
  end.

Definition truthy_number (n : option Z) : bool :=
  match n with
  | Some n => negb (n =? 0)
  | None => false
  end.

(** [x || d] on an optional number. *)
Definition number_or (n : option Z) (d : Z) : Z :=
  if truthy_number n then default d n else d.

(** ** State and exception monad *)

Inductive result (A : Type) :=
  | Return (a : A)
  | Throw (err : string).
Arguments Return {A} a.
Arguments Throw {A} err.

Definition M (A : Type) : Type := Store → result A * Store.

Definition ret {A} (a : A) : M A := λ s, (Return a, s).

Definition bind {A B} (m : M A) (k : A → M B) : M B :=
  λ s, match m s with
       | (Return a, s') => k a s'
       | (Throw e, s') => (Throw e, s')
       end.

(** [try { body } catch (error) { handler }] *)
Definition try_catch {A} (body : M A) (handler : string → M A) : M A :=
  λ s, match body s with
       | (Return a, s') => (Return a, s')
       | (Throw e, s') => handler e s'
       end.

Definition gets {A} (f : Store → A) : M A := λ s, (Return (f s), s).

Definition modify (f : Store → Store) : M unit := λ s, (Return tt, f s).

Notation "'let*' x := m 'in' k" := (bind m (λ x, k))
  (at level 10, x name, m at level 100, k at level 200, only parsing).
Notation "m ;;; k" := (bind m (λ _, k))
  (at level 100, k at level 200, right associativity, only parsing).

(** ** The two tiers *)

Definition set_memoryClips (f : gmap string Clip → gmap string Clip) (s : Store) : Store :=
  mkStore (f (memoryClips s)) (redis s) (redisConnected s).

Definition set_redis (f : gmap string RedisEntry → gmap string RedisEntry) (s : Store) : Store :=
  mkStore (memoryClips s) (f <$> redis s) (redisConnected s).

Definition set_redisConnected (b : bool) (s : Store) : Store :=
  mkStore (memoryClips s) (redis s) b.

(** [this.memoryClips.set(token, clip)] *)
Definition memory_set (token : string) (clip : Clip) : M unit :=
  modify (set_memoryClips (insert token clip)).

(** [this.memoryClips.delete(token)]: true when the key was present. *)
Definition memory_delete (token : string) : M bool :=
  let* present := gets (λ s, bool_decide (is_Some (memoryClips s !! token))) in
  modify (set_memoryClips (delete token)) ;;;
  ret present.

(** Commands of the Redis client.  Called on a [null] client they raise a
    [TypeError]; a command the server or the connection fails raises too, and
    then has no effect on the keyspace. *)
Definition redis_setex (flt : RedisFaults) (key : string) (seconds : Z) (v : Clip) : M unit :=
  λ s, match redis s with
       | None => (Throw "TypeError", s)
       | Some _ =>
           if setex_fails flt then (Throw "setex", s)
           else (Return tt, set_redis (insert key (mkEntry seconds v)) s)
       end.

Definition redis_get (flt : RedisFaults) (key : string) : M (option Clip) :=
  λ s, match redis s with
       | None => (Throw "TypeError", s)
       | Some db =>
           if get_fails flt then (Throw "get", s)
           else (Return (value <$> db !! key), s)
       end.

(** [DEL key] answers the number of keys it removed. *)
Definition redis_del (flt : RedisFaults) (key : string) : M Z :=
  λ s, match redis s with
       | None => (Throw "TypeError", s)
       | Some db =>
           if del_fails flt then (Throw "del", s)
           else (Return (if bool_decide (is_Some (db !! key)) then 1 else 0),
                 set_redis (delete key) s)
       end.

Definition redis_keys (flt : RedisFaults) : M (list string) :=
  λ s, match redis s with
       | None => (Throw "TypeError", s)
       | Some db =>
           if keys_fails flt then (Throw "keys", s)
           else (Return (fst <$> map_to_list db), s)
       end.

(** ** The memory-only store ([ClipStorage])

    The class that [HybridClipStorage] grew out of: one [Map], no Redis, no
    exceptions.  Its methods are functions on the map. *)

Module ClipStorage.

Record Stats := mkStats {
  totalClips : Z;
  activeClips : Z;
  expiredClips : Z;
  oldestClip : option Z;
  totalAccesses : Z
}.

(** [createClip] for an [expiresAt] that is a valid date; its log line is in
    [Dated.createClip_memory]. *)
Definition createClip (hashPassword : string → string) (token : string) (now : Z)
    (options : CreateClipOptions) (clips : gmap string Clip)
    : (string * Z) * gmap string Clip :=
  let expirationMinutes := number_or (opt_expirationMinutes options) 60 in
  let expiresAt := now + expirationMinutes * 60 * 1000 in
  let clip := {|
    id := token;
    content := opt_content options;
    contentType := default text (opt_contentType options);
    createdAt := now;
    expiresAt := expiresAt;
    accessCount := 0;
    maxAccess := opt_maxAccess options;
    password :=
      if truthy_string (opt_password options)
      then hashPassword <$> opt_password options
      else None;
    burnAfterReading := default false (opt_burnAfterReading options)
  |} in
  ((token, expiresAt), <[token := clip]> clips).

Definition getClip (hashPassword : string → string) (now : Z) (token : string)
    (pw : option string) (clips : gmap string Clip) : option Clip * gmap string Clip :=
  match clips !! token with
  | None => (None, clips)
  | Some clip =>
      if expiresAt clip <? now then (None, delete token clips)
      else if truthy_string (password clip)
              && (negb (truthy_string pw)
                  || negb (String.eqb (hashPassword (default "" pw))
                                      (default "" (password clip))))
      then (None, clips)
      else if truthy_number (maxAccess clip)
              && (default 0 (maxAccess clip) <=? accessCount clip)
      then (None, delete token clips)
      else
        let clip := {|
          id := id clip;
          content := content clip;
          contentType := contentType clip;
          createdAt := createdAt clip;
          expiresAt := expiresAt clip;
          accessCount := accessCount clip + 1;
          maxAccess := maxAccess clip;
          password := password clip;
          burnAfterReading := burnAfterReading clip
        |} in
        let clips := <[token := clip]> clips in
        (Some clip, if burnAfterReading clip then delete token clips else clips)
  end.

Definition getClipInfo (now : Z) (token : string) (clips : gmap string Clip)
    : option ClipInfo :=
  match clips !! token with
  | None => None
  | Some clip =>
      if expiresAt clip <? now then None
      else Some {|
             info_createdAt := createdAt clip;
             info_expiresAt := expiresAt clip;
             info_accessCount := accessCount clip;
             info_contentType := contentType clip
           |}
  end.

Definition deleteClip (token : string) (clips : gmap string Clip)
    : bool * gmap string Clip :=
  (bool_decide (is_Some (clips !! token)), delete token clips).

Definition getStats (now : Z) (clips : gmap string Clip) : Stats :=
  let all := snd <$> map_to_list clips in
  let active := filter (λ clip, now < expiresAt clip) all in
  {| totalClips := Z.of_nat (length all);
     activeClips := Z.of_nat (length active);
     expiredClips := Z.of_nat (length all) - Z.of_nat (length active);
     oldestClip :=
       match createdAt <$> active with
       | [] => None
       | x :: xs => Some (foldr Z.min x xs)
       end;
     totalAccesses := foldl (λ sum clip, sum + accessCount clip) 0 active |}.

Definition cleanupExpiredClips (now : Z) (clips : gmap string Clip) : gmap string Clip :=
  filter (λ kv, ¬ (expiresAt (snd kv) < now)) clips.

End ClipStorage.

(** ** The error middleware ([middleware/errorHandler.ts])

    [errorHandler] reads the error, the request path, [NODE_ENV] and the
    clock, and answers with a status and a JSON body; a key whose value is
    [undefined] is absent from the body. *)

Module ErrorHandler.

Record ApiError := mkError {
  name : string;
  message : string;
  stack : option string;
  statusCode : option Z;
  isOperational : option bool;
  has_body : bool
}.

Record ErrorBody := mkBody {
  error : string;
  details : option string;
  timestamp : string;
  path : string;
  body_stack : option string
}.

(** JavaScript truthiness of a string. *)
Definition truthy (s : string) : bool := negb (String.eqb s "").

Definition errorHandler (node_env : option string) (now_iso : string)
    (err : ApiError) (req_path : string) : Z * ErrorBody :=
  let statusCode := number_or (statusCode err) 500 in
  let message := if truthy (message err) then message err else "Internal server error" in
  let details : option string := None in
  let '(statusCode, message, details) :=
    if String.eqb (name err) "ValidationError"
    then (400, "Validation failed", Some (ErrorHandler.message err))
    else (statusCode, message, details) in
  let '(statusCode, message) :=
    if String.eqb (name err) "SyntaxError" && has_body err
    then (400, "Invalid JSON format")
    else (statusCode, message) in
  let '(statusCode, message) :=
    if String.eqb (name err) "PayloadTooLargeError"
    then (413, "Request payload too large")
    else (statusCode, message) in
  let '(message, details) :=
    if (statusCode =? 500) && bool_decide (node_env = Some "production")
    then ("Something went wrong on our end", None)
    else (message, details) in
  (statusCode,
   {| error := message;
      details := match details with
                 | Some d => if truthy d then Some d else None
                 | None => None
                 end;
      timestamp := now_iso;
      path := req_path;
      body_stack := if bool_decide (node_env = Some "development") then stack err else None |}).

(** [createError(message, statusCode = 500)]; [trace] is the stack that
    [new Error] captures. *)
Definition createError (trace : string) (message : string) (statusCode : option Z)
    : ApiError :=
  {| name := "Error";
     message := message;
     stack := Some trace;
     statusCode := Some (default 500 statusCode);
     isOperational := Some true;
     has_body := false |}.

End ErrorHandler.

(** ** Dates out of range

    A [Date] holds a time value within 8.64e15 ms of the epoch; a time value
    beyond that makes an Invalid Date, on which [toISOString] raises a
    [RangeError].  [createClip] computes [expiresAt] from its input and
    formats it twice: inside the [try] of [storeInRedis], and in its own log
    line, outside any [try].  Here is the method with both written out. *)

Module Dated.

Definition valid_date (t : Z) : bool :=
  (-8640000000000000 <=? t) && (t <=? 8640000000000000).

(** [date.toISOString()], for what it raises. *)
Definition toISOString (t : Z) : M unit :=
  λ s, if valid_date t then (Return tt, s)
       else (Throw "RangeError: Invalid time value", s).

(** The arguments of [setex] are evaluated, dates first, inside the [try]. *)
Definition storeInRedis (flt : RedisFaults) (token : string) (clip : Clip)
    (ttlSeconds : Z) : M unit :=
  let* connected := gets redisConnected in
  let* client := gets redis in
  if negb connected || negb (bool_decide (is_Some client)) then ret tt
  else try_catch
         (toISOString (createdAt clip) ;;;
          toISOString (expiresAt clip) ;;;
          redis_setex flt token ttlSeconds clip)
         (λ _, ret tt).

Definition createClip (hashPassword : string → string) (flt : RedisFaults)
    (token : string) (now : Z) (options : CreateClipOptions) : M (string * Z) :=
  let expirationMinutes := number_or (opt_expirationMinutes options) 60 in
  let expiresAt := now + expirationMinutes * 60 * 1000 in
  let clip := {|
    id := token;
    content := opt_content options;
    contentType := default text (opt_contentType options);
    createdAt := now;
    expiresAt := expiresAt;
    accessCount := 0;
    maxAccess := opt_maxAccess options;
    password :=
      if truthy_string (opt_password options)
      then hashPassword <$> opt_password options
      else None;
    burnAfterReading := default false (opt_burnAfterReading options)
  |} in
  memory_set token clip ;;;
  storeInRedis flt token clip (expirationMinutes * 60) ;;;
  toISOString expiresAt ;;;
  ret (token, expiresAt).

(** [ClipStorage.createClip] with its log line. *)
Definition createClip_memory (hashPassword : string → string) (token : string) (now : Z)
    (options : CreateClipOptions) (clips : gmap string Clip)
    : result (string * Z) * gmap string Clip :=
  let expirationMinutes := number_or (opt_expirationMinutes options) 60 in
  let expiresAt := now + expirationMinutes * 60 * 1000 in
  let clip := {|
    id := token;
    content := opt_content options;
    contentType := default text (opt_contentType options);
    createdAt := now;
    expiresAt := expiresAt;
    accessCount := 0;
    maxAccess := opt_maxAccess options;
    password :=
      if truthy_string (opt_password options)
      then hashPassword <$> opt_password options
      else None;
    burnAfterReading := default false (opt_burnAfterReading options)
  |} in
  (if valid_date expiresAt then Return (token, expiresAt)
   else Throw "RangeError: Invalid time value",
   <[token := clip]> clips).

End Dated.

(** ** Closed instances used by the examples *)

(** A stand-in for the digest; the examples do not depend on which function
    it is. *)
Definition sample_digest (p : string) : string := "sha256:" +:+ p.

(** An empty store whose Redis client is connected to an empty server. *)
Definition connected_store : Store := mkStore ∅ (Some ∅) true.

(** An empty store without any Redis URL configured. *)
Definition memory_store : Store := mkStore ∅ None false.

Definition sample_token : string := "0123456789abcdef0123456789abcdef".

(** Options as the route passes them: only some of the fields set. *)
Definition plain_options (body : string) : CreateClipOptions :=
  mkOptions body None None None None None.

Definition burn_options (body : string) : CreateClipOptions :=
  mkOptions body None None None (Some true) None.

Definition limited_options (body : string) (k : Z) : CreateClipOptions :=
  mkOptions body None None None None (Some k).

Definition locked_options (body secret : string) : CreateClipOptions :=
  mkOptions body None None (Some secret) None None.

(** The clip that [createClip] builds at time 0 from [plain_options], with
    the counter at [n]. *)
Definition sample_clip (body : string) (n : Z) : Clip :=
  mkClip sample_token body text 0 3600000 n None None false.

Definition other_token : string := "fedcba9876543210fedcba9876543210".

(** A connected store whose server alone holds [sample_clip]. *)
Definition durable_only_store : Store :=
  mkStore ∅ (Some {[sample_token := mkEntry 3600 (sample_clip "hello" 0)]}) true.

(** One Redis command failing during a call. *)
Definition del_fault : RedisFaults := mkFaults false false true false.
Definition setex_fault : RedisFaults := mkFaults false true false false.

(** ** The store *)

Section HybridClipStorage.

(** [crypto.createHash("sha256").update(password).digest("hex")] *)
Variable hashPassword : string → string.

Definition verifyPassword (password hash : string) : bool :=
  String.eqb (hashPassword password) hash.

Definition storeInRedis (flt : RedisFaults) (token : string) (clip : Clip)
    (ttlSeconds : Z) : M unit :=
  let* connected := gets redisConnected in
  let* client := gets redis in
  if negb connected || negb (bool_decide (is_Some client)) then ret tt
  else try_catch (redis_setex flt token ttlSeconds clip) (λ _, ret tt).

Definition getFromRedis (flt : RedisFaults) (token : string) : M (option Clip) :=
  let* connected := gets redisConnected in
  let* client := gets redis in
  if negb connected || negb (bool_decide (is_Some client)) then ret None
  else try_catch (redis_get flt token) (λ _, ret None).

(** [createClip] for dates that are valid, where its log line returns;
    [Dated.createClip] is the method with the log line. *)
Definition createClip (flt : RedisFaults) (token : string) (now : Z)
    (options : CreateClipOptions) : M (string * Z) :=
  let expirationMinutes := number_or (opt_expirationMinutes options) 60 in
  let expiresAt := now + expirationMinutes * 60 * 1000 in
  let clip := {|
    id := token;
    content := opt_content options;
    contentType := default text (opt_contentType options);
    createdAt := now;
    expiresAt := expiresAt;
    accessCount := 0;
    maxAccess := opt_maxAccess options;
    password :=
      if truthy_string (opt_password options)
      then hashPassword <$> opt_password options
      else None;
    burnAfterReading := default false (opt_burnAfterReading options)
  |} in
  memory_set token clip ;;;
  storeInRedis flt token clip (expirationMinutes * 60) ;;;
  ret (token, expiresAt).

Definition deleteClip (flt : RedisFaults) (token : string) : M bool :=
  let* memoryDeleted := memory_delete token in
  let* connected := gets redisConnected in
  let* redisDeleted :=
    (if connected then
       try_catch
         (let* client := gets redis in
          match client with
          | Some _ => let* n := redis_del flt token in ret (0 <? n)
          | None => ret false
          end)
         (λ _, ret false)
     else ret false) in
  ret (memoryDeleted || redisDeleted).

Definition getClip (flt : RedisFaults) (now now2 : Z) (token : string)
    (pw : option string) : M (option Clip) :=
  let* mem := gets (λ s, memoryClips s !! token) in
  let* connected := gets redisConnected in
  let* found :=
    match mem with
    | Some clip => ret (Some clip)
    | None =>
        if connected then
          let* restored := getFromRedis flt token in
          match restored with
          | Some clip => memory_set token clip ;;; ret (Some clip)
          | None => ret None
          end
        else ret None
    end in
  match found with
  | None => ret None
  | Some clip =>
      if expiresAt clip <? now then
        deleteClip flt token ;;; ret None
      else if truthy_string (password clip)
              && (negb (truthy_string pw)
                  || negb (verifyPassword (default "" pw) (default "" (password clip))))
      then ret None
      else if truthy_number (maxAccess clip)
              && (default 0 (maxAccess clip) <=? accessCount clip)
      then deleteClip flt token ;;; ret None
      else
        let clip := {|
          id := id clip;
          content := content clip;
          contentType := contentType clip;
          createdAt := createdAt clip;
          expiresAt := expiresAt clip;
          accessCount := accessCount clip + 1;
          maxAccess := maxAccess clip;
          password := password clip;
          burnAfterReading := burnAfterReading clip
        |} in
        memory_set token clip ;;;
        storeInRedis flt token clip ((expiresAt clip - now2) / 1000) ;;;
        (if burnAfterReading clip then deleteClip flt token ;;; ret tt else ret tt) ;;;
        ret (Some clip)
  end.

Definition getClipInfo (flt : RedisFaults) (now : Z) (token : string) : M (option ClipInfo) :=
  let* mem := gets (λ s, memoryClips s !! token) in
  let* connected := gets redisConnected in
  let* found :=
    match mem with
    | Some clip => ret (Some clip)
    | None => if connected then getFromRedis flt token else ret None
    end in
  match found with
  | None => ret None
  | Some clip =>
      if expiresAt clip <? now then ret None
      else ret (Some {|
             info_createdAt := createdAt clip;
             info_expiresAt := expiresAt clip;
             info_accessCount := accessCount clip;
             info_contentType := contentType clip
           |})
  end.

(** [Math.min(...xs)] on a non-empty array. *)
Definition math_min (xs : list Z) : option Z :=
  match xs with
  | [] => None
  | x :: xs => Some (foldr Z.min x xs)
  end.

Definition getStats (flt : RedisFaults) (now : Z) : M StorageStats :=
  let* all := gets (λ s, snd <$> map_to_list (memoryClips s)) in
  let live := filter (λ clip, now < expiresAt clip) all in
  let* connected := gets redisConnected in
  let* redisClipsCount :=
    (if connected then
       try_catch (let* keys := redis_keys flt in ret (Z.of_nat (length keys)))
                 (λ _, ret 0)
     else ret 0) in
  ret {|
    totalClips := Z.of_nat (length all);
    activeClips := Z.of_nat (length live);
    expiredClips := Z.of_nat (length all) - Z.of_nat (length live);
    oldestClip := math_min (createdAt <$> live);
    totalAccesses := foldl (λ sum clip, sum + accessCount clip) 0 live;
    stat_redisConnected := connected;
    stat_memoryClips := Z.of_nat (length all);
    redisClips := redisClipsCount
  |}.

(** The sweeper. *)
Definition cleanupExpiredClips (now : Z) : M unit :=
  modify (set_memoryClips (filter (λ kv, ¬ (expiresAt (snd kv) < now)))).


(** Handlers registered on the client: ["error"] and ["close"] clear the
    flag, ["connect"] sets it. *)
Definition on_redis_event (connected : bool) : M unit :=
  modify (set_redisConnected connected).

(** The server drops a key whose TTL ran out; this happens on the server's
    own clock, between two calls of the store. *)
Definition server_expire (key : string) : M unit :=
  modify (set_redis (delete key)).

(** ** Calls and runs *)

Inductive Call :=
  | CreateClip (flt : RedisFaults) (token : string) (now : Z) (options : CreateClipOptions)
  | GetClip (flt : RedisFaults) (now now2 : Z) (token : string) (pw : option string)
  | GetClipInfo (flt : RedisFaults) (now : Z) (token : string)
  | DeleteClip (flt : RedisFaults) (token : string)
  | GetStats (flt : RedisFaults) (now : Z)
  | Sweep (now : Z)
  | RedisEvent (connected : bool)
  | ServerExpire (key : string).

Inductive Response :=
  | Created (token : string) (expiresAt : Z)
  | GotClip (clip : option Clip)
  | GotInfo (info : option ClipInfo)
  | Deleted (deleted : bool)
  | Stats (stats : StorageStats)
  | Done
  | Raised (err : string).

Definition respond {A} (f : A → Response) (r : result A * Store) : Response * Store :=
  match r with
  | (Return a, s) => (f a, s)
  | (Throw e, s) => (Raised e, s)
  end.

Definition step (c : Call) (s : Store) : Response * Store :=
  match c with
  | CreateClip flt token now options =>
      respond (λ r, Created (fst r) (snd r)) (createClip flt token now options s)
  | GetClip flt now now2 token pw => respond GotClip (getClip flt now now2 token pw s)
  | GetClipInfo flt now token => respond GotInfo (getClipInfo flt now token s)
  | DeleteClip flt token => respond Deleted (deleteClip flt token s)
  | GetStats flt now => respond Stats (getStats flt now s)
  | Sweep now => respond (λ _, Done) (cleanupExpiredClips now s)
  | RedisEvent connected => respond (λ _, Done) (on_redis_event connected s)
  | ServerExpire key => respond (λ _, Done) (server_expire key s)
  end.

Fixpoint run (cs : list Call) (s : Store) : list Response * Store :=
  match cs with
  | [] => ([], s)
  | c :: cs =>
      let '(r, s1) := step c s in
      let '(rs, s2) := run cs s1 in
      (r :: rs, s2)
  end.

(** A call that allocates [token] anew. *)
Definition creates (token : string) (c : Call) : bool :=
  match c with
  | CreateClip _ token' _ _ => bool_decide (token' = token)
  | _ => false
  end.

(** ** What one call of the store reaches *)

(** The guards in front of each Redis command, with the outcome of the
    command itself. *)
Definition redis_ready (s : Store) : bool :=
  redisConnected s && bool_decide (is_Some (redis s)).

Definition get_reaches (flt : RedisFaults) (s : Store) : bool :=
  redis_ready s && negb (get_fails flt).

Definition setex_reaches (flt : RedisFaults) (s : Store) : bool :=
  redis_ready s && negb (setex_fails flt).

Definition del_reaches (flt : RedisFaults) (s : Store) : bool :=
  redis_ready s && negb (del_fails flt).

(** The copy kept by the server under [token]. *)
Definition durable (s : Store) (token : string) : option Clip :=
  db ← redis s; value <$> db !! token.

(** The clip that the lookup at the head of [getClip] and [getClipInfo]
    ends up with: the Fast Tier first, then the Durable Tier. *)
Definition found (flt : RedisFaults) (s : Store) (token : string) : option Clip :=
  match memoryClips s !! token with
  | Some clip => Some clip
  | None => if get_reaches flt s then durable s token else None
  end.

(** [clip.accessCount++] *)
Definition bump (clip : Clip) : Clip :=
  mkClip (id clip) (content clip) (contentType clip) (createdAt clip) (expiresAt clip)
         (accessCount clip + 1) (maxAccess clip) (password clip) (burnAfterReading clip).

Definition password_gate (clip : Clip) (pw : option string) : bool :=
  truthy_string (password clip)
  && (negb (truthy_string pw)
      || negb (verifyPassword (default "" pw) (default "" (password clip)))).

Definition max_gate (clip : Clip) : bool :=
  truthy_number (maxAccess clip) && (default 0 (maxAccess clip) <=? accessCount clip).


(** The state that a successful or failed delete leaves. *)
Definition after_delete (flt : RedisFaults) (token : string) (s : Store) : Store :=
  mkStore (delete token (memoryClips s))
          (if del_reaches flt s then delete token <$> redis s else redis s)
          (redisConnected s).

Definition after_store (flt : RedisFaults) (token : string) (clip : Clip) (seconds : Z)
    (s : Store) : Store :=
  if setex_reaches flt s then set_redis (insert token (mkEntry seconds clip)) s else s.

(** The record that [createClip] builds. *)
Definition new_clip (token : string) (now : Z) (options : CreateClipOptions) : Clip :=
  {| id := token;
     content := opt_content options;
     contentType := default text (opt_contentType options);
     createdAt := now;
     expiresAt := now + number_or (opt_expirationMinutes options) 60 * 60 * 1000;
     accessCount := 0;
     maxAccess := opt_maxAccess options;
     password :=
       if truthy_string (opt_password options)
       then hashPassword <$> opt_password options
       else None;
     burnAfterReading := default false (opt_burnAfterReading options) |}.

(** The fields that [getClipInfo] picks. *)
Definition info_of (clip : Clip) : ClipInfo :=
  mkInfo (createdAt clip) (expiresAt clip) (accessCount clip) (contentType clip).

(** The request validators of the [POST /clip] route: the inputs that reach
    [createClip]. *)
Definition valid_options (options : CreateClipOptions) : bool :=
  negb (String.eqb (opt_content options) "")
  && (Z.of_nat (String.length (opt_content options)) <=? 100000)
  && match opt_expirationMinutes options with
     | Some m => (1 <=? m) && (m <=? 10080)
     | None => true
     end
  && match opt_password options with
     | Some p => (4 <=? Z.of_nat (String.length p)) && (Z.of_nat (String.length p) <=? 100)
     | None => true
     end
  && match opt_maxAccess options with
     | Some k => (1 <=? k) && (k <=? 1000)
     | None => true
     end.

(** The Fast Tier and the Durable Tier both lack [token]. *)
Definition absent (s : Store) (token : string) : Prop :=
  memoryClips s !! token = None ∧ durable s token = None.

(** The clip that a call hands out for [token], if it hands one out. *)
Definition reads_of (token : string) (c : Call) (r : Response) : option Clip :=
  match c, r with
  | GetClip _ _ _ token' _, GotClip (Some clip) =>
      if bool_decide (token' = token) then Some clip else None
  | _, _ => None
  end.

(** The copy that the store serves for [token]: the Fast Tier copy, or the
    Durable Tier copy when the Fast Tier has none. *)
Definition held (s : Store) (token : string) (clip : Clip) : Prop :=
  memoryClips s !! token = Some clip
  ∨ (memoryClips s !! token = None ∧ durable s token = Some clip).

(** The Fast Tier holds [token] after every call of the run. *)
Fixpoint resident (token : string) (cs : list Call) (s : Store) : Prop :=
  match cs with
  | [] => True
  | c :: cs =>
      is_Some (memoryClips (snd (step c s)) !! token)
      ∧ resident token cs (snd (step c s))
  end.

(** The number of calls of the run that hand out the clip of [token]. *)
Fixpoint successes (token : string) (cs : list Call) (s : Store) : Z :=
  match cs with
  | [] => 0
  | c :: cs =>
      match reads_of token c (fst (step c s)) with Some _ => 1 | None => 0 end
      + successes token cs (snd (step c s))
  end.

(** [clip] with its counter set to [n]. *)
Definition with_count (clip : Clip) (n : Z) : Clip :=
  mkClip (id clip) (content clip) (contentType clip) (createdAt clip) (expiresAt clip)
         n (maxAccess clip) (password clip) (burnAfterReading clip).

(** A [getClip] on [token] that answers not-found. *)
Definition answers_not_found (token : string) (c : Call) (r : Response) : Prop :=
  match c with
  | GetClip _ _ _ t _ => t = token → r = GotClip None
  | _ => True
  end.

(** [getClip] calls on one token, each with its own password. *)
Definition attempts (token : string)
    (tries : list (RedisFaults * Z * Z * option string)) : list Call :=
  (λ t, GetClip (fst (fst (fst t))) (snd (fst (fst t))) (snd (fst t)) token (snd t)) <$> tries.

(** Consecutive [getClip] calls on one token with one password. *)
Definition gets_at (token : string) (pw : option string)
    (reads : list (RedisFaults * Z * Z)) : list Call :=
  (λ r, GetClip (fst (fst r)) (snd (fst r)) (snd r) token pw) <$> reads.

(** ** Further views used by the properties of the whole store *)

(** The token that a call names. *)
Definition call_token (c : Call) : option string :=
  match c with
  | CreateClip _ token _ _ => Some token
  | GetClip _ _ _ token _ => Some token
  | GetClipInfo _ _ token => Some token
  | DeleteClip _ token => Some token
  | ServerExpire key => Some key
  | GetStats _ _ | Sweep _ | RedisEvent _ => None
  end.

(** A call of [createClip]. *)
Definition is_create (c : Call) : bool :=
  match c with
  | CreateClip _ _ _ _ => true
  | _ => false
  end.

(** A method of the store, as opposed to an event of the connection or of
    the server. *)
Definition is_method (c : Call) : bool :=
  match c with
  | RedisEvent _ | ServerExpire _ => false
  | _ => true
  end.

(** The Durable Tier copy of [token] has not been read more often than the
    Fast Tier copy. *)
Definition mirror_behind (s : Store) (token : string) : Prop :=
  ∀ fast slow, memoryClips s !! token = Some fast → durable s token = Some slow →
               accessCount slow ≤ accessCount fast.

(** The flag and the client handle agree. *)
Definition coherent (s : Store) : Prop :=
  redisConnected s = bool_decide (is_Some (redis s)).

(** [initializeRedis], run by the constructor.  [server] is the keyspace of
    the server behind the URL; [connect_fails] tells whether
    [redis.connect()] raises. *)
Definition initializeRedis (node_env upstash_redis_url redis_url : option string)
    (server : gmap string RedisEntry) (connect_fails : bool) : M unit :=
  try_catch
    (let redisUrl :=
       if bool_decide (node_env = Some "production") then upstash_redis_url
       else redis_url in
     if negb (truthy_string redisUrl) then ret tt
     else
       modify (λ s, mkStore (memoryClips s) (Some server) (redisConnected s)) ;;;
       (λ s, if connect_fails then (Throw "connect", s) else (Return tt, s)) ;;;
       modify (set_redisConnected true))
    (λ _, modify (λ s, mkStore (memoryClips s) None false)).

(** The state that the field initialisers of the class set up. *)
Definition constructed : Store := mkStore ∅ None false.

(** ** Equations of the operations *)

Ltac unfold_M :=
  unfold memory_set, memory_delete, redis_setex, redis_get, redis_del, redis_keys,
    try_catch, bind, ret, gets, modify in *.

Lemma set_memoryClips_id (s : Store) (token : string) (clip : Clip) :
  memoryClips s !! token = Some clip →
  set_memoryClips (insert token clip) s = s.
Proof.
  intros H. destruct s as [m r c]; unfold set_memoryClips; simpl in *.
  by rewrite insert_id.
Qed.

Lemma storeInRedis_eq flt token clip seconds s :
  storeInRedis flt token clip seconds s =
  (Return tt,
   if setex_reaches flt s then set_redis (insert token (mkEntry seconds clip)) s else s).
Proof.
  unfold storeInRedis, setex_reaches, redis_ready; unfold_M.
  destruct s as [m [db|] [|]], flt as [g [|] d k]; simpl; reflexivity.
Qed.

Lemma getFromRedis_eq flt token s :
  getFromRedis flt token s =
  (Return (if get_reaches flt s then durable s token else None), s).
Proof.
  unfold getFromRedis, get_reaches, redis_ready, durable; unfold_M.
  destruct s as [m [db|] [|]], flt as [[|] x d k]; simpl; reflexivity.
Qed.

Lemma deleteClip_eq flt token s :
  deleteClip flt token s =
  (Return (bool_decide (is_Some (memoryClips s !! token))
           || (del_reaches flt s && bool_decide (is_Some (durable s token)))),
   mkStore (delete token (memoryClips s))
           (if del_reaches flt s then delete token <$> redis s else redis s)
           (redisConnected s)).
Proof.
  unfold deleteClip, del_reaches, redis_ready, durable, set_redis, set_memoryClips; unfold_M.
  destruct s as [m [db|] [|]], flt as [g x [|] k]; simpl;
    rewrite ?orb_false_r; try reflexivity.
  destruct (db !! token) as [e|] eqn:E; reflexivity.
Qed.

Lemma getClip_eq flt now now2 token pw s :
  getClip flt now now2 token pw s =
  match found flt s token with
  | None => (Return None, s)
  | Some clip =>
      let s1 := set_memoryClips (insert token clip) s in
      if expiresAt clip <? now then (Return None, after_delete flt token s1)
      else if password_gate clip pw then (Return None, s1)
      else if max_gate clip then (Return None, after_delete flt token s1)
      else
        let s2 := after_store flt token (bump clip) ((expiresAt clip - now2) / 1000)
                    (set_memoryClips (insert token (bump clip)) s1) in
        (Return (Some (bump clip)),
         if burnAfterReading clip then after_delete flt token s2 else s2)
  end.
Proof.
  unfold getClip, found.
  unfold bind at 1, gets at 1. unfold bind at 1, gets at 1.
  destruct (memoryClips s !! token) as [clip|] eqn:Hmem.
  - unfold bind at 1, ret at 1.
    rewrite (set_memoryClips_id s token clip Hmem).
    fold (password_gate clip pw) (max_gate clip) (bump clip).
    destruct (expiresAt clip <? now).
    { unfold bind, ret. by rewrite deleteClip_eq. }
    destruct (password_gate clip pw); [done|].
    destruct (max_gate clip).
    { unfold bind, ret. by rewrite deleteClip_eq. }
    unfold bind at 1, memory_set, modify.
    unfold bind at 1. rewrite storeInRedis_eq. fold (after_store flt token (bump clip)
      ((expiresAt clip - now2) / 1000) (set_memoryClips (insert token (bump clip)) s)).
    simpl. destruct (burnAfterReading clip); unfold bind, ret; [by rewrite deleteClip_eq|done].
  - assert (Hready : get_reaches flt s = true → redisConnected s = true).
    { unfold get_reaches, redis_ready. by intros [[? ?]%andb_prop ?]%andb_prop. }
    destruct (redisConnected s) eqn:Hc.
    2:{ destruct (get_reaches flt s); [by specialize (Hready eq_refl)|done]. }
    unfold bind at 1. unfold bind at 1. rewrite getFromRedis_eq.
    destruct (if get_reaches flt s then durable s token else None) as [clip|] eqn:Hf.
    2:{ done. }
    unfold bind at 1, memory_set, modify, ret at 1.
    fold (password_gate clip pw) (max_gate clip) (bump clip).
    destruct (expiresAt clip <? now).
    { unfold bind, ret. by rewrite deleteClip_eq. }
    destruct (password_gate clip pw); [done|].
    destruct (max_gate clip).
    { unfold bind, ret. by rewrite deleteClip_eq. }
    unfold bind at 1. unfold bind at 1. rewrite storeInRedis_eq.
    simpl. destruct (burnAfterReading clip); unfold bind, ret; [by rewrite deleteClip_eq|done].
Qed.

Lemma getClipInfo_eq flt now token s :
  getClipInfo flt now token s =
  (Return (clip ← found flt s token;
           if expiresAt clip <? now then None else Some (info_of clip)), s).
Proof.
  unfold getClipInfo, found.
  unfold bind at 1, gets at 1. unfold bind at 1, gets at 1.
  destruct (memoryClips s !! token) as [clip|] eqn:Hmem.
  - unfold bind, ret; simpl. by destruct (expiresAt clip <? now).
  - assert (Hready : get_reaches flt s = true → redisConnected s = true).
    { unfold get_reaches, redis_ready. by intros [[? ?]%andb_prop ?]%andb_prop. }
    destruct (redisConnected s) eqn:Hc.
    2:{ destruct (get_reaches flt s); [by specialize (Hready eq_refl)|done]. }
    unfold bind at 1. rewrite getFromRedis_eq.
    destruct (if get_reaches flt s then durable s token else None) as [clip|]; simpl; [|done].
    unfold ret. by destruct (expiresAt clip <? now).
Qed.

Lemma createClip_eq flt token now options s :
  createClip flt token now options s =
  (Return (token, expiresAt (new_clip token now options)),
   after_store flt token (new_clip token now options)
     (number_or (opt_expirationMinutes options) 60 * 60)
     (set_memoryClips (insert token (new_clip token now options)) s)).
Proof.
  unfold createClip. fold (new_clip token now options).
  unfold bind at 1, memory_set, modify. unfold bind at 1.
  by rewrite storeInRedis_eq.
Qed.

(** ** Fields of the states in those equations *)

Lemma memoryClips_after_store flt token clip seconds s :
  memoryClips (after_store flt token clip seconds s) = memoryClips s.
Proof. unfold after_store. by destruct (setex_reaches flt s). Qed.

Lemma redis_ready_after_store flt token clip seconds s :
  redis_ready (after_store flt token clip seconds s) = redis_ready s.
Proof.
  unfold after_store, redis_ready. destruct (setex_reaches flt s); [|done].
  by destruct s as [m [db|] c].
Qed.

Lemma durable_after_store flt token clip seconds s token' :
  durable (after_store flt token clip seconds s) token' =
  if setex_reaches flt s && bool_decide (token = token') then Some clip
  else durable s token'.
Proof.
  unfold after_store. destruct (setex_reaches flt s) eqn:E; [|done].
  unfold setex_reaches, redis_ready in E. unfold durable.
  destruct s as [m [db|] c]; simpl in *.
  - case_bool_decide; subst; simpl.
    + by rewrite lookup_insert_eq.
    + by rewrite lookup_insert_ne.
  - by rewrite andb_false_r in E.
Qed.

Lemma durable_after_delete flt token s token' :
  durable (after_delete flt token s) token' =
  if del_reaches flt s && bool_decide (token = token') then None
  else durable s token'.
Proof.
  unfold after_delete, durable; simpl. destruct (del_reaches flt s); [|done].
  destruct (redis s) as [db|]; simpl.
  - case_bool_decide; subst; simpl.
    + by rewrite lookup_delete_eq.
    + by rewrite lookup_delete_ne.
  - by case_bool_decide.
Qed.

Lemma redis_ready_after_delete flt token s :
  redis_ready (after_delete flt token s) = redis_ready s.
Proof.
  unfold after_delete, redis_ready; simpl.
  destruct (del_reaches flt s); [|done]. by destruct (redis s).
Qed.

Lemma redis_ready_set_memoryClips f s :
  redis_ready (set_memoryClips f s) = redis_ready s.
Proof. done. Qed.

Lemma durable_set_memoryClips f s token :
  durable (set_memoryClips f s) token = durable s token.
Proof. done. Qed.

Lemma found_memory flt s token clip :
  memoryClips s !! token = Some clip → found flt s token = Some clip.
Proof. unfold found. by intros ->. Qed.

Lemma found_absent flt s token : absent s token → found flt s token = None.
Proof.
  intros [Hm Hd]. unfold found. rewrite Hm, Hd. by destruct (get_reaches flt s).
Qed.

(** ** Round trip *)

Lemma valid_options_maxAccess options k :
  valid_options options = true → opt_maxAccess options = Some k → 1 ≤ k.
Proof.
  unfold valid_options. intros H Hk. rewrite Hk in H.
  apply andb_prop in H as [_ H]. apply andb_prop in H as [H _]. lia.
Qed.

Lemma password_gate_correct options token now pw :
  (∀ p, opt_password options = Some p → pw = Some p) →
  password_gate (new_clip token now options) pw = false.
Proof.
  intros Hpw. unfold password_gate, new_clip; simpl.
  destruct (opt_password options) as [p|] eqn:Hp; simpl; [|done].
  rewrite (Hpw p eq_refl); simpl.
  destruct (String.eqb p "") eqn:E; simpl; [done|].
  unfold verifyPassword. rewrite String.eqb_refl; simpl. by rewrite andb_false_r.
Qed.

Lemma max_gate_new_clip options token now :
  valid_options options = true →
  max_gate (new_clip token now options) = false.
Proof.
  intros Hv. unfold max_gate, new_clip; simpl.
  destruct (opt_maxAccess options) as [k|] eqn:Hk; simpl; [|done].
  pose proof (valid_options_maxAccess options k Hv Hk).
  apply andb_false_iff. right. lia.
Qed.

(** C1. For every valid create input, [createClip] followed by [getClip] on
    the returned token, with the password of the input when it has one and
    no later than the returned [expiresAt], returns a clip whose content is
    the input content and whose [accessCount] is 1.  Neither call raises,
    whatever the Redis commands do. *)
Theorem create_then_get_roundtrip s flt flt' token now now' now2 options pw :
  valid_options options = true →
  (∀ p, opt_password options = Some p → pw = Some p) →
  now' ≤ now + number_or (opt_expirationMinutes options) 60 * 60 * 1000 →
  ∃ s1 clip s2,
    createClip flt token now options s =
      (Return (token, now + number_or (opt_expirationMinutes options) 60 * 60 * 1000), s1)
    ∧ getClip flt' now' now2 token pw s1 = (Return (Some clip), s2)
    ∧ content clip = opt_content options
    ∧ accessCount clip = 1.
Proof.
  intros Hv Hpw Hnow.
  rewrite createClip_eq. eexists _, (bump (new_clip token now options)), _.
  split; [reflexivity|].
  rewrite getClip_eq.
  erewrite found_memory; cycle 1.
  { rewrite memoryClips_after_store. apply lookup_insert_eq. }
  cbv zeta.
  replace (expiresAt (new_clip token now options) <? now') with false
    by (symmetry; apply Z.ltb_ge; simpl; lia).
  rewrite (password_gate_correct options token now pw Hpw).
  rewrite (max_gate_new_clip options token now Hv).
  split; [reflexivity|]. split; reflexivity.
Qed.

Lemma memoryClips_after_delete flt token s :
  memoryClips (after_delete flt token s) = delete token (memoryClips s).
Proof. done. Qed.

Lemma memoryClips_set_memoryClips f s :
  memoryClips (set_memoryClips f s) = f (memoryClips s).
Proof. done. Qed.

Lemma del_reaches_ready flt s s' :
  redis_ready s' = redis_ready s → del_reaches flt s' = del_reaches flt s.
Proof. unfold del_reaches. by intros ->. Qed.

(** ** Create and the mirror write *)

Lemma Dated_createClip_valid flt token now options s :
  Dated.valid_date now = true →
  Dated.valid_date (now + number_or (opt_expirationMinutes options) 60 * 60 * 1000) = true →
  Dated.createClip hashPassword flt token now options s =
  createClip flt token now options s.
Proof.
  intros Hnow Hexp.
  unfold Dated.createClip, Dated.storeInRedis, Dated.toISOString, createClip, storeInRedis.
  unfold_M. simpl. rewrite Hnow, Hexp.
  destruct (negb (redisConnected s) || negb (bool_decide (is_Some (redis s)))); [done|].
  destruct (redis s); [|done]. by destruct (setex_fails flt).
Qed.

Lemma valid_options_expirationMinutes options :
  valid_options options = true →
  1 ≤ number_or (opt_expirationMinutes options) 60 ≤ 10080.
Proof.
  unfold valid_options, number_or, truthy_number. intros H.
  destruct (opt_expirationMinutes options) as [m|]; simpl; [|lia].
  apply andb_prop in H as [H _]. apply andb_prop in H as [H _].
  apply andb_prop in H as [_ H]. apply andb_prop in H as [H1 H2].
  replace (m =? 0) with false by (symmetry; apply Z.eqb_neq; lia). simpl. lia.
Qed.

(** C8 (amended). Whenever the creation instant and [expiresAt] are valid
    dates, which is the case for every input that passes the validation of
    the route at any clock reading from the epoch up to a week before the end
    of the range of [Date], [createClip] returns its token and [expiresAt]
    for every outcome of the Redis command it issues, with the new clip in
    the Fast Tier; a [setex] that raises is swallowed, leaves the Durable
    Tier as it was, and leaves the rest of the Fast Tier alone. *)
Theorem createClip_swallows_mirror_failures s flt token now options :
  (valid_options options = true → 0 ≤ now ≤ 8640000000000000 - 604800000 →
   Dated.valid_date now = true
   ∧ Dated.valid_date (now + number_or (opt_expirationMinutes options) 60 * 60 * 1000)
     = true)
  ∧ (Dated.valid_date now = true →
     Dated.valid_date (now + number_or (opt_expirationMinutes options) 60 * 60 * 1000)
       = true →
     ∃ s',
       Dated.createClip hashPassword flt token now options s =
         (Return (token, now + number_or (opt_expirationMinutes options) 60 * 60 * 1000),
          s')
       ∧ memoryClips s' !! token = Some (new_clip token now options)
       ∧ memoryClips s' = <[token := new_clip token now options]> (memoryClips s)
       ∧ (if setex_fails flt then redis s' = redis s
          else if redis_ready s then durable s' token = Some (new_clip token now options)
          else redis s' = redis s)).
Proof.
  split.
  - intros Hv Hnow. pose proof (valid_options_expirationMinutes options Hv).
    unfold Dated.valid_date. split; apply andb_true_iff; split; lia.
  - intros Hnow Hexp. rewrite (Dated_createClip_valid flt token now options s Hnow Hexp).
    rewrite createClip_eq. eexists. split; [reflexivity|].
    rewrite memoryClips_after_store, memoryClips_set_memoryClips.
    split; [apply lookup_insert_eq|]. split; [done|].
    destruct (setex_fails flt) eqn:Hf.
    + unfold after_store, setex_reaches. rewrite Hf, andb_false_r. done.
    + destruct (redis_ready s) eqn:Hr.
      * rewrite durable_after_store. unfold setex_reaches.
        rewrite redis_ready_set_memoryClips, Hr, Hf; simpl.
        by rewrite (bool_decide_eq_true_2 (token = token)).
      * unfold after_store, setex_reaches.
        by rewrite redis_ready_set_memoryClips, Hr.
Qed.

(** ** Peek is read-only *)

(** C10. [getClipInfo] returns without raising and leaves the whole store
    (Fast Tier, Durable Tier, connection flag) exactly as it found it: a
    clip found only in the Durable Tier is not written back, and for an
    expired clip it answers not-found without deleting anything. *)
Theorem getClipInfo_leaves_store_unchanged s flt now token :
  getClipInfo flt now token s =
  (Return match found flt s token with
          | Some clip => if expiresAt clip <? now then None else Some (info_of clip)
          | None => None
          end,
   s).
Proof. rewrite getClipInfo_eq. by destruct (found flt s token). Qed.

(** ** Password gate *)

(** C6. For a clip that the lookup finds and that carries a password digest,
    [getClip] without a password, or with one whose digest differs from the
    stored digest, answers not-found, the very answer it gives for a token
    that neither tier holds; [getClipInfo], which takes no password at all,
    returns the metadata of that clip as long as it has not expired. *)
Theorem wrong_password_reads_as_not_found s flt now now2 token pw clip :
  found flt s token = Some clip →
  truthy_string (password clip) = true →
  (∀ p, pw = Some p → hashPassword p ≠ default "" (password clip)) →
  fst (getClip flt now now2 token pw s) = Return None
  ∧ (∀ s0 flt0 now0 now0' pw0, absent s0 token →
       getClip flt0 now0 now0' token pw0 s0 = (Return None, s0))
  ∧ (now ≤ expiresAt clip →
       getClipInfo flt now token s = (Return (Some (info_of clip)), s)).
Proof.
  intros Hfound Hprot Hpw. split; [|split].
  - rewrite getClip_eq, Hfound. cbv zeta.
    destruct (expiresAt clip <? now); [done|].
    assert (password_gate clip pw = true) as ->; [|done].
    unfold password_gate. rewrite Hprot; simpl.
    destruct pw as [p|]; simpl; [|done].
    apply orb_true_iff. right. apply negb_true_iff.
    unfold verifyPassword. apply String.eqb_neq. by apply Hpw.
  - intros s0 flt0 now0 now0' pw0 Habs.
    by rewrite getClip_eq, (found_absent _ _ _ Habs).
  - intros Hlive. rewrite getClipInfo_eq, Hfound; simpl.
    by replace (expiresAt clip <? now) with false by (symmetry; apply Z.ltb_ge; lia).
Qed.

(** ** Delete *)

(** C9 (amended). [deleteClip] takes no password and never raises.  It
    returns true exactly when the Fast Tier held the token, or the Redis
    [del] command was issued (client connected), did not raise, and removed
    the key.  It always removes the token from the Fast Tier; it removes the
    Durable Tier copy exactly when that command went through, and otherwise
    leaves it in place.  A second [deleteClip] on the token returns true only
    when the first call left a Durable Tier copy behind and the second one
    reaches it; in every other case it returns false. *)
Theorem deleteClip_reports_what_it_removed s flt token :
  ∃ s',
    deleteClip flt token s =
      (Return (bool_decide (is_Some (memoryClips s !! token))
               || (del_reaches flt s && bool_decide (is_Some (durable s token)))), s')
    ∧ memoryClips s' !! token = None
    ∧ durable s' token = (if del_reaches flt s then None else durable s token)
    ∧ ∀ flt',
        fst (deleteClip flt' token s') =
        Return (negb (del_reaches flt s) && del_reaches flt' s
                && bool_decide (is_Some (durable s token))).
Proof.
  rewrite deleteClip_eq. fold (after_delete flt token s).
  eexists. split; [reflexivity|].
  split; [by rewrite memoryClips_after_delete, lookup_delete_eq|].
  split.
  { rewrite durable_after_delete. rewrite (bool_decide_eq_true_2 (token = token)) by done.
    by rewrite andb_true_r. }
  intros flt'. rewrite deleteClip_eq; simpl.
  rewrite lookup_delete_eq.
  rewrite (bool_decide_eq_false_2 (is_Some None)) by (by intros [? ?]); simpl.
  rewrite (del_reaches_ready flt' s (after_delete flt token s))
    by apply redis_ready_after_delete.
  rewrite durable_after_delete. rewrite (bool_decide_eq_true_2 (token = token)) by done.
  rewrite andb_true_r.
  destruct (del_reaches flt s); simpl; [by rewrite andb_false_r|done].
Qed.

(** ** Expiration *)

(** C2 (amended). [getClip] never returns a clip whose [expiresAt] lies
    before the current time, whichever tier the clip came from.  When the
    clip that the lookup finds has expired, [getClip] answers not-found and
    removes the token from the Fast Tier; the Durable Tier copy is removed
    when the Redis [del] command is issued and does not raise, and stays
    otherwise.  [getClipInfo] answers not-found for that clip as well, and
    changes nothing. *)
Theorem expired_clip_is_never_returned s flt now now2 token pw :
  (∀ clip s', getClip flt now now2 token pw s = (Return (Some clip), s') →
              now ≤ expiresAt clip)
  ∧ (∀ clip, found flt s token = Some clip → expiresAt clip < now →
       ∃ s', getClip flt now now2 token pw s = (Return None, s')
             ∧ memoryClips s' !! token = None
             ∧ durable s' token = (if del_reaches flt s then None else durable s token)
             ∧ getClipInfo flt now token s = (Return None, s)).
Proof.
  split.
  - intros clip s'. rewrite getClip_eq.
    destruct (found flt s token) as [c|]; [|done]. cbv zeta.
    destruct (expiresAt c <? now) eqn:E; [done|].
    destruct (password_gate c pw); [done|].
    destruct (max_gate c); [done|].
    intros [= <- _]. simpl. lia.
  - intros clip Hfound Hexp. rewrite getClip_eq, Hfound. cbv zeta.
    replace (expiresAt clip <? now) with true by (symmetry; apply Z.ltb_lt; lia).
    eexists. split; [reflexivity|].
    split; [by rewrite memoryClips_after_delete, lookup_delete_eq|].
    split.
    { rewrite durable_after_delete, durable_set_memoryClips.
      rewrite (bool_decide_eq_true_2 (token = token)) by done. rewrite andb_true_r.
      by rewrite (del_reaches_ready flt s (set_memoryClips _ s)). }
    rewrite getClipInfo_eq, Hfound; simpl.
    by replace (expiresAt clip <? now) with true by (symmetry; apply Z.ltb_lt; lia).
Qed.

(** ** One call, seen from one token *)

Lemma found_held flt s token clip : found flt s token = Some clip → held s token clip.
Proof.
  unfold found, held. destruct (memoryClips s !! token); [by left|].
  destruct (get_reaches flt s); [|done]. by right.
Qed.

Lemma getStats_state flt now s : snd (getStats flt now s) = s.
Proof.
  unfold getStats; unfold_M. destruct (redisConnected s); [|done].
  destruct (redis s); [|done]. by destruct (keys_fails flt).
Qed.

Lemma getClip_state_other flt now now2 t pw s token :
  t ≠ token →
  memoryClips (snd (getClip flt now now2 t pw s)) !! token = memoryClips s !! token
  ∧ durable (snd (getClip flt now now2 t pw s)) token = durable s token.
Proof.
  intros Hne. rewrite getClip_eq.
  destruct (found flt s t) as [c|]; [|done]. cbv zeta.
  repeat match goal with
         | |- context [if ?b then _ else _] => destruct b eqn:?
         end; simpl;
    rewrite ?memoryClips_after_delete, ?memoryClips_after_store,
      ?memoryClips_set_memoryClips, ?durable_after_delete, ?durable_after_store,
      ?durable_set_memoryClips, ?lookup_delete_ne, ?lookup_insert_ne by done;
    rewrite ?(bool_decide_eq_false_2 (t = token)), ?andb_false_r by done;
    rewrite ?memoryClips_after_delete, ?memoryClips_after_store,
      ?memoryClips_set_memoryClips, ?durable_after_delete, ?durable_after_store,
      ?durable_set_memoryClips, ?lookup_delete_ne, ?lookup_insert_ne by done;
    rewrite ?(bool_decide_eq_false_2 (t = token)), ?andb_false_r by done;
    done.
Qed.

Ltac store_fields :=
  repeat first
    [ rewrite memoryClips_after_delete | rewrite memoryClips_after_store
    | rewrite memoryClips_set_memoryClips | rewrite durable_after_delete
    | rewrite durable_after_store | rewrite durable_set_memoryClips
    | rewrite lookup_delete_eq | rewrite lookup_insert_eq
    | rewrite (bool_decide_eq_true_2 (_ = _)) by done
    | rewrite andb_true_r ].

(** What one [getClip] on [token] does, case by case. *)
Lemma getClip_outcome flt now now2 token pw s :
  (found flt s token = None
   ∧ getClip flt now now2 token pw s = (Return None, s))
  ∨ (∃ clip s', found flt s token = Some clip
       ∧ getClip flt now now2 token pw s = (Return None, s')
       ∧ memoryClips s' !! token = None
       ∧ durable s' token = (if del_reaches flt s then None else durable s token))
  ∨ (∃ clip s', found flt s token = Some clip
       ∧ getClip flt now now2 token pw s = (Return None, s')
       ∧ memoryClips s' !! token = Some clip
       ∧ durable s' token = durable s token)
  ∨ (∃ clip s', found flt s token = Some clip
       ∧ getClip flt now now2 token pw s = (Return (Some (bump clip)), s')
       ∧ memoryClips s' !! token =
           (if burnAfterReading clip then None else Some (bump clip))
       ∧ (durable s' token = durable s token
          ∨ durable s' token = None
          ∨ durable s' token = Some (bump clip))).
Proof.
  rewrite getClip_eq.
  destruct (found flt s token) as [clip|] eqn:Hfound; [|by left].
  right. cbv zeta.
  assert (Hdel : ∀ s0, redis_ready s0 = redis_ready s →
            durable s0 token = durable s token →
            durable (after_delete flt token s0) token =
              (if del_reaches flt s then None else durable s token)).
  { intros s0 Hr Hd. rewrite durable_after_delete, (del_reaches_ready flt s s0 Hr), Hd.
    rewrite (bool_decide_eq_true_2 (token = token)) by done. by rewrite andb_true_r. }
  destruct (expiresAt clip <? now).
  { left. eexists clip, _. repeat split; [by store_fields|by apply Hdel]. }
  destruct (password_gate clip pw).
  { right; left. eexists clip, _. repeat split; by store_fields. }
  destruct (max_gate clip).
  { left. eexists clip, _. repeat split; [by store_fields|by apply Hdel]. }
  right; right. eexists clip, _. split; [done|]. split; [reflexivity|].
  destruct (burnAfterReading clip).
  - split; [by store_fields|]. store_fields.
    match goal with |- context [if ?b then None else _] => destruct b end;
      [right; left; done|].
    match goal with |- context [if ?b then Some _ else _] => destruct b end;
      [right; right; done|left; done].
  - split; [by store_fields|]. store_fields.
    match goal with |- context [if ?b then Some _ else _] => destruct b end;
      [right; right; done|left; done].
Qed.

Lemma snd_respond {A} (f : A → Response) (r : result A * Store) :
  snd (respond f r) = snd r.
Proof. by destruct r as [[a|e] s]. Qed.

Lemma reads_of_other flt now now2 t pw token r :
  t ≠ token → reads_of token (GetClip flt now now2 t pw) r = None.
Proof.
  intros Hne. unfold reads_of. destruct r as [| [clip|] | | | | |]; try done.
  by rewrite bool_decide_eq_false_2.
Qed.

Lemma step_state_other_create flt t now options s token :
  t ≠ token →
  memoryClips (snd (step (CreateClip flt t now options) s)) !! token = memoryClips s !! token
  ∧ durable (snd (step (CreateClip flt t now options) s)) token = durable s token.
Proof.
  intros Hne. simpl. rewrite createClip_eq; simpl. store_fields.
  rewrite lookup_insert_ne by done.
  rewrite (bool_decide_eq_false_2 (t = token)) by done.
  by rewrite andb_false_r.
Qed.

Lemma step_memory c s token clip' :
  creates token c = false →
  memoryClips (snd (step c s)) !! token = Some clip' →
  held s token clip'
  ∨ (reads_of token c (fst (step c s)) = Some clip'
     ∧ ∃ clip, held s token clip ∧ clip' = bump clip).
Proof.
  intros Hc. destruct c as [flt t now o|flt now now2 t pw|flt now t|flt t|flt now|now|b|k].
  - apply bool_decide_eq_false in Hc.
    destruct (step_state_other_create flt t now o s token Hc) as [-> _]. by left; left.
  - destruct (decide (t = token)) as [->|Hne].
    + simpl.
      destruct (getClip_outcome flt now now2 token pw s)
        as [[Hf ->]|[(c & s' & Hf & -> & Hm & Hd)|[(c & s' & Hf & -> & Hm & Hd)
             |(c & s' & Hf & -> & Hm & Hd)]]]; simpl.
      * by left; left.
      * by rewrite Hm.
      * rewrite Hm. intros [= <-]. left. by eapply found_held.
      * rewrite Hm. destruct (burnAfterReading c); [done|]. intros [= <-].
        right. rewrite bool_decide_eq_true_2 by done.
        split; [done|]. exists c. split; [by eapply found_held|done].
    + cbn [step]. rewrite snd_respond.
      destruct (getClip_state_other flt now now2 t pw s token Hne) as [-> _].
      by left; left.
  - simpl. rewrite getClipInfo_eq; simpl. by left; left.
  - simpl. rewrite deleteClip_eq; simpl.
    destruct (decide (t = token)) as [->|Hne].
    + by rewrite lookup_delete_eq.
    + rewrite lookup_delete_ne by done. by left; left.
  - cbn [step]. rewrite snd_respond, getStats_state. by left; left.
  - simpl. intros [H _]%map_lookup_filter_Some. by left; left.
  - simpl. by left; left.
  - simpl. by left; left.
Qed.

Lemma step_durable c s token clip' :
  creates token c = false →
  durable (snd (step c s)) token = Some clip' →
  durable s token = Some clip'
  ∨ (reads_of token c (fst (step c s)) = Some clip'
     ∧ ∃ clip, held s token clip ∧ clip' = bump clip).
Proof.
  intros Hc. destruct c as [flt t now o|flt now now2 t pw|flt now t|flt t|flt now|now|b|k].
  - apply bool_decide_eq_false in Hc.
    destruct (step_state_other_create flt t now o s token Hc) as [_ ->]. by left.
  - destruct (decide (t = token)) as [->|Hne].
    + simpl.
      destruct (getClip_outcome flt now now2 token pw s)
        as [[Hf ->]|[(c & s' & Hf & -> & Hm & Hd)|[(c & s' & Hf & -> & Hm & Hd)
             |(c & s' & Hf & -> & Hm & Hd)]]]; simpl.
      * by left.
      * rewrite Hd. destruct (del_reaches flt s); [done|by left].
      * rewrite Hd. by left.
      * destruct Hd as [->|[->| ->]]; [by left|done|].
        intros [= <-]. right. rewrite bool_decide_eq_true_2 by done.
        split; [done|]. exists c. split; [by eapply found_held|done].
    + cbn [step]. rewrite snd_respond.
      destruct (getClip_state_other flt now now2 t pw s token Hne) as [_ ->].
      by left.
  - simpl. rewrite getClipInfo_eq; simpl. by left.
  - simpl. rewrite deleteClip_eq. fold (after_delete flt t s). simpl.
    rewrite durable_after_delete.
    destruct (del_reaches flt s && bool_decide (t = token)); [done|by left].
  - cbn [step]. rewrite snd_respond, getStats_state. by left.
  - simpl. by left.
  - simpl. by left.
  - simpl. unfold durable; simpl. destruct (redis s) as [db|]; simpl; [|done].
    destruct (decide (k = token)) as [->|Hne].
    + by rewrite lookup_delete_eq.
    + rewrite lookup_delete_ne by done. by left.
Qed.

Lemma step_reads c s token clip' :
  reads_of token c (fst (step c s)) = Some clip' →
  ∃ clip, held s token clip ∧ clip' = bump clip.
Proof.
  destruct c as [flt t now o|flt now now2 t pw|flt now t|flt t|flt now|now|b|k];
    try done.
  destruct (decide (t = token)) as [->|Hne].
  - simpl.
    destruct (getClip_outcome flt now now2 token pw s)
      as [[Hf ->]|[(c & s' & Hf & -> & Hm & Hd)|[(c & s' & Hf & -> & Hm & Hd)
           |(c & s' & Hf & -> & Hm & Hd)]]]; simpl; try done.
    rewrite bool_decide_eq_true_2 by done. intros [= <-].
    exists c. split; [by eapply found_held|done].
  - by rewrite reads_of_other.
Qed.

(** ** A token that neither tier holds *)

Lemma not_held_absent s token clip : absent s token → ¬ held s token clip.
Proof. intros [Hm Hd] [H|[_ H]]; congruence. Qed.

Lemma step_absent c s token :
  creates token c = false → absent s token →
  absent (snd (step c s)) token ∧ answers_not_found token c (fst (step c s)).
Proof.
  intros Hc Habs. split; [split|].
  - destruct (memoryClips (snd (step c s)) !! token) as [clip'|] eqn:E; [|done].
    destruct (step_memory c s token clip' Hc E) as [H|[_ (clip & H & _)]];
      by apply not_held_absent in H.
  - destruct (durable (snd (step c s)) token) as [clip'|] eqn:E; [|done].
    destruct (step_durable c s token clip' Hc E) as [H|[_ (clip & H & _)]].
    + destruct Habs as [_ Hd]. congruence.
    + by apply not_held_absent in H.
  - destruct c; try done. intros ->. simpl.
    by rewrite getClip_eq, (found_absent _ _ _ Habs).
Qed.

Lemma run_absent cs s token :
  Forall (λ c, creates token c = false) cs → absent s token →
  Forall2 (answers_not_found token) cs (fst (run cs s))
  ∧ absent (snd (run cs s)) token.
Proof.
  intros Hcs. revert s. induction Hcs as [|c cs Hc Hcs IH]; intros s Habs; simpl.
  - by split.
  - destruct (step_absent c s token Hc Habs) as [Habs1 Hr].
    destruct (step c s) as [r s1]; simpl in *.
    destruct (IH s1 Habs1) as [Hrs Habs2].
    destruct (run cs s1) as [rs s2]; simpl in *.
    split; [by constructor|done].
Qed.

Lemma redis_ready_created flt token now options s :
  redis_ready (snd (createClip flt token now options s)) = redis_ready s.
Proof. rewrite createClip_eq; simpl. by rewrite redis_ready_after_store. Qed.

(** ** Burn after reading *)

Lemma setex_reaches_ready flt s s' :
  redis_ready s' = redis_ready s → setex_reaches flt s' = setex_reaches flt s.
Proof. unfold setex_reaches. by intros ->. Qed.

(** A [getClip] stopped by the password check leaves a clip of the Fast
    Tier, and the whole store, as they were. *)
Lemma getClip_locked_out flt now now2 token pw s clip :
  memoryClips s !! token = Some clip →
  now ≤ expiresAt clip →
  password_gate clip pw = true →
  getClip flt now now2 token pw s = (Return None, s).
Proof.
  intros Hm Hnow Hpw. rewrite getClip_eq, (found_memory flt s token clip Hm).
  cbv zeta. rewrite (set_memoryClips_id s token clip Hm), Hpw.
  by replace (expiresAt clip <? now) with false by (symmetry; apply Z.ltb_ge; lia).
Qed.

Lemma run_locked_out token clip tries :
  ∀ s,
    memoryClips s !! token = Some clip →
    Forall (λ t, snd (fst (fst t)) ≤ expiresAt clip ∧ password_gate clip (snd t) = true)
           tries →
    run (attempts token tries) s = (replicate (length tries) (GotClip None), s).
Proof.
  induction tries as [|[[[flt now] now2] pw] tries IH]; intros s Hm Htries; [done|].
  apply Forall_cons in Htries as [[Hnow Hpw] Htries]. simpl in Hnow, Hpw.
  cbn [attempts fmap list_fmap run step fst snd].
  rewrite (getClip_locked_out flt now now2 token pw s clip Hm Hnow Hpw). cbn [respond].
  fold (attempts token tries). by rewrite (IH s Hm Htries).
Qed.

(** C3 (amended). For a clip created with [burnAfterReading = true],
    [getClip] calls stopped by the password check change nothing, and the
    first [getClip] that passes the checks returns the content with
    [accessCount] 1 and removes the clip from the Fast Tier in that call.
    When the Redis [del] command of that call is issued and does not raise,
    or when the Durable Tier never received a copy (no client, or not
    connected, and no earlier entry), the Durable Tier holds no copy either,
    and from then on every [getClip] on the token answers not-found, whatever
    calls are made in between, as long as none creates the token again. *)
Theorem burn_after_reading_first_read s flt flt' token now now' now2 options pw tries :
  valid_options options = true →
  opt_burnAfterReading options = Some true →
  (∀ p, opt_password options = Some p → pw = Some p) →
  now' ≤ now + number_or (opt_expirationMinutes options) 60 * 60 * 1000 →
  Forall (λ t, snd (fst (fst t)) ≤ expiresAt (new_clip token now options)
               ∧ password_gate (new_clip token now options) (snd t) = true) tries →
  ∃ s1 clip s2,
    s1 = snd (createClip flt token now options s)
    ∧ run (attempts token tries) s1 = (replicate (length tries) (GotClip None), s1)
    ∧ getClip flt' now' now2 token pw s1 = (Return (Some clip), s2)
    ∧ content clip = opt_content options
    ∧ accessCount clip = 1
    ∧ memoryClips s2 !! token = None
    ∧ (del_reaches flt' s = true ∨ (redis_ready s = false ∧ durable s token = None) →
       absent s2 token)
    ∧ (absent s2 token →
       ∀ cs, Forall (λ c, creates token c = false) cs →
             Forall2 (answers_not_found token) cs (fst (run cs s2))).
Proof.
  intros Hv Hburn Hpw Hnow Htries.
  rewrite createClip_eq; simpl. set (nc := new_clip token now options).
  set (s1 := after_store _ _ _ _ _).
  assert (Hm1 : memoryClips s1 !! token = Some nc) by (unfold s1; by store_fields).
  assert (Hr1 : redis_ready s1 = redis_ready s)
    by (unfold s1; by rewrite redis_ready_after_store).
  assert (Hget : getClip flt' now' now2 token pw s1 =
            (Return (Some (bump nc)),
             after_delete flt' token
               (after_store flt' token (bump nc) ((expiresAt nc - now2) / 1000)
                  (set_memoryClips (insert token (bump nc)) s1)))).
  { rewrite getClip_eq, (found_memory flt' s1 token nc Hm1). cbv zeta.
    rewrite (set_memoryClips_id s1 token nc Hm1).
    replace (expiresAt nc <? now') with false by (symmetry; apply Z.ltb_ge; simpl; lia).
    unfold nc at 1 2.
    rewrite (password_gate_correct options token now pw Hpw).
    rewrite (max_gate_new_clip options token now Hv).
    replace (burnAfterReading nc) with true by (simpl; by rewrite Hburn).
    done. }
  eexists s1, (bump nc), _. split; [done|].
  split; [by apply (run_locked_out token nc)|].
  split; [exact Hget|]. split; [done|]. split; [done|].
  assert (Hgone : memoryClips
            (after_delete flt' token
               (after_store flt' token (bump nc) ((expiresAt nc - now2) / 1000)
                  (set_memoryClips (insert token (bump nc)) s1))) !! token = None)
    by (by store_fields).
  split; [done|]. split.
  - intros Hcase. split; [done|]. store_fields.
    rewrite (del_reaches_ready flt' s)
      by (by rewrite redis_ready_after_store, redis_ready_set_memoryClips).
    rewrite (setex_reaches_ready flt' s)
      by (by rewrite redis_ready_set_memoryClips).
    destruct Hcase as [->|[Hr Hd]]; [done|].
    unfold del_reaches, setex_reaches. rewrite Hr; simpl.
    unfold s1. rewrite durable_after_store, durable_set_memoryClips.
    unfold setex_reaches. rewrite redis_ready_set_memoryClips, Hr. done.
  - intros Habs cs Hcs.
    by destruct (run_absent cs _ token Hcs Habs).
Qed.

(** ** Access limit *)

Lemma getClip_returns flt now now2 token pw s clip s' :
  getClip flt now now2 token pw s = (Return (Some clip), s') →
  ∃ c, found flt s token = Some c ∧ clip = bump c
       ∧ memoryClips s' !! token = (if burnAfterReading c then None else Some clip)
       ∧ redis_ready s' = redis_ready s.
Proof.
  rewrite getClip_eq. destruct (found flt s token) as [c|]; [|done]. cbv zeta.
  destruct (expiresAt c <? now); [done|].
  destruct (password_gate c pw); [done|].
  destruct (max_gate c); [done|].
  intros [= <- <-]. exists c. split; [done|]. split; [done|].
  destruct (burnAfterReading c).
  - split; [by store_fields|].
    by rewrite redis_ready_after_delete, redis_ready_after_store.
  - split; [by store_fields|]. by rewrite redis_ready_after_store.
Qed.

(** A [getClip] on a clip of the Fast Tier whose counter has reached its
    limit. *)
Lemma getClip_exhausted flt now now2 token pw s clip k :
  memoryClips s !! token = Some clip →
  maxAccess clip = Some k → k ≠ 0 → k ≤ accessCount clip →
  ∃ s', getClip flt now now2 token pw s = (Return None, s')
        ∧ (password_gate clip pw = false ∨ expiresAt clip < now →
           memoryClips s' !! token = None
           ∧ durable s' token = (if del_reaches flt s then None else durable s token)).
Proof.
  intros Hm Hk Hk0 Hcount. rewrite getClip_eq, (found_memory flt s token clip Hm).
  cbv zeta. rewrite (set_memoryClips_id s token clip Hm).
  assert (Hmax : max_gate clip = true).
  { unfold max_gate. rewrite Hk; simpl. apply andb_true_iff. split; [|lia].
    apply negb_true_iff. lia. }
  assert (Hdel : memoryClips (after_delete flt token s) !! token = None
            ∧ durable (after_delete flt token s) token =
                (if del_reaches flt s then None else durable s token)).
  { split; [by store_fields|]. rewrite durable_after_delete.
    rewrite (bool_decide_eq_true_2 (token = token)) by done. by rewrite andb_true_r. }
  destruct (expiresAt clip <? now) eqn:E.
  { eexists. split; [reflexivity|]. by intros _. }
  destruct (password_gate clip pw).
  { eexists. split; [reflexivity|]. intros [?|?]; [done|lia]. }
  rewrite Hmax. eexists. split; [reflexivity|]. by intros _.
Qed.

(** C5 (amended). When a [getClip] returns a clip whose [accessCount] has
    just reached a set, non-zero [maxAccess], and the clip is not
    burn-after-reading, that call does not delete it: the clip is still in
    the Fast Tier and [getClipInfo] still reports it while it has not
    expired.  It is unreadable from then on: the next [getClip] on the token
    answers not-found, and if that call gets past the password check (or
    finds the clip expired) it is the one that removes the clip from the
    Fast Tier, and from the Durable Tier when its Redis [del] command is
    issued and does not raise. *)
Theorem max_access_reached_deletes_on_next_read s flt now now2 token pw clip s' k :
  getClip flt now now2 token pw s = (Return (Some clip), s') →
  maxAccess clip = Some k → k ≠ 0 → accessCount clip = k →
  burnAfterReading clip = false →
  memoryClips s' !! token = Some clip
  ∧ (∀ flt1 now1, now1 ≤ expiresAt clip →
       getClipInfo flt1 now1 token s' = (Return (Some (info_of clip)), s'))
  ∧ (∀ flt1 now1 now1' pw1,
       ∃ s'', getClip flt1 now1 now1' token pw1 s' = (Return None, s'')
              ∧ (password_gate clip pw1 = false ∨ expiresAt clip < now1 →
                 memoryClips s'' !! token = None
                 ∧ durable s'' token =
                     (if del_reaches flt1 s' then None else durable s' token))).
Proof.
  intros Hget Hk Hk0 Hcount Hburn.
  destruct (getClip_returns _ _ _ _ _ _ _ _ Hget) as (c & Hf & -> & Hm & _).
  simpl in Hburn. rewrite Hburn in Hm.
  split; [done|]. split.
  - intros flt1 now1 Hlive.
    rewrite getClipInfo_eq, (found_memory flt1 s' token _ Hm); simpl.
    by replace (expiresAt c <? now1) with false by (symmetry; apply Z.ltb_ge; simpl in *; lia).
  - intros flt1 now1 now1' pw1.
    apply (getClip_exhausted flt1 now1 now1' token pw1 s' (bump c) k Hm Hk Hk0). lia.
Qed.

Lemma with_count_id clip : with_count clip (accessCount clip) = clip.
Proof. by destruct clip. Qed.

Lemma reads_below_limit token pw reads :
  ∀ s clip k,
    memoryClips s !! token = Some clip →
    maxAccess clip = Some k →
    burnAfterReading clip = false →
    password_gate clip pw = false →
    accessCount clip + Z.of_nat (length reads) ≤ k →
    Forall (λ r, snd (fst r) ≤ expiresAt clip) reads →
    ∃ s',
      run (gets_at token pw reads) s =
        ((λ i, GotClip (Some (with_count clip (accessCount clip + Z.of_nat i))))
           <$> seq 1 (length reads), s')
      ∧ memoryClips s' !! token =
          Some (with_count clip (accessCount clip + Z.of_nat (length reads)))
      ∧ redis_ready s' = redis_ready s.
Proof.
  induction reads as [|[[flt now] now2] reads IH]; intros s clip k Hm Hk Hburn Hpw Hle Hlive.
  - exists s. simpl. rewrite Z.add_0_r, with_count_id. done.
  - apply Forall_cons in Hlive as [Hnow Hlive]. simpl in Hnow.
    cbn [gets_at fmap list_fmap run step fst snd].
    rewrite getClip_eq, (found_memory flt s token clip Hm). cbv zeta.
    rewrite (set_memoryClips_id s token clip Hm).
    replace (expiresAt clip <? now) with false by (symmetry; apply Z.ltb_ge; lia).
    rewrite Hpw.
    assert (max_gate clip = false) as ->.
    { unfold max_gate. rewrite Hk; simpl. apply andb_false_iff. right.
      apply Z.leb_gt. simpl length in Hle. lia. }
    rewrite Hburn. cbn [respond].
    set (s1 := after_store _ _ _ _ _).
    assert (Hm1 : memoryClips s1 !! token = Some (bump clip)).
    { unfold s1. by store_fields. }
    destruct (IH s1 (bump clip) k Hm1 Hk Hburn Hpw) as (s' & Hrun & Hm' & Hr').
    { simpl. simpl length in Hle. lia. }
    { done. }
    fold (gets_at token pw reads). rewrite Hrun.
    exists s'. split; [|split].
    + f_equal. simpl length. cbn [seq fmap list_fmap]. f_equal.
      rewrite <- (fmap_S_seq 1), <- list_fmap_compose.
      apply list_fmap_ext. intros i x _. simpl. do 3 f_equal. lia.
    + rewrite Hm'. f_equal. simpl length. unfold with_count; simpl. f_equal. lia.
    + rewrite Hr'. unfold s1. by rewrite redis_ready_after_store.
Qed.

(** C4 (amended). For a clip created with [maxAccess = k], [k ≥ 1], and
    without burn-after-reading, [k] consecutive [getClip] calls with the
    right password, none later than [expiresAt], all succeed, and the i-th
    returns the clip with [accessCount = i].  The next [getClip] with the
    right password answers not-found and removes the clip from the Fast
    Tier; the Durable Tier holds no copy afterwards when the Redis [del]
    command of that call is issued and does not raise. *)
Theorem max_access_allows_k_reads s flt token now options pw k reads flt' now' now2' :
  valid_options options = true →
  opt_maxAccess options = Some k →
  default false (opt_burnAfterReading options) = false →
  (∀ p, opt_password options = Some p → pw = Some p) →
  Z.of_nat (length reads) = k →
  Forall (λ r, snd (fst r) ≤ now + number_or (opt_expirationMinutes options) 60 * 60 * 1000)
         reads →
  ∃ s2 s3,
    run (gets_at token pw reads) (snd (createClip flt token now options s)) =
      ((λ i, GotClip (Some (with_count (new_clip token now options) (Z.of_nat i))))
         <$> seq 1 (length reads), s2)
    ∧ getClip flt' now' now2' token pw s2 = (Return None, s3)
    ∧ memoryClips s3 !! token = None
    ∧ (del_reaches flt' s = true → absent s3 token).
Proof.
  intros Hv Hk Hburn Hpw Hlen Hlive.
  pose proof (valid_options_maxAccess options k Hv Hk) as Hk1.
  rewrite createClip_eq; simpl. set (s1 := after_store _ _ _ _ _).
  assert (Hm1 : memoryClips s1 !! token = Some (new_clip token now options)).
  { unfold s1. by store_fields. }
  assert (Hr1 : redis_ready s1 = redis_ready s).
  { unfold s1. by rewrite redis_ready_after_store. }
  destruct (reads_below_limit token pw reads s1 (new_clip token now options) k Hm1)
    as (s2 & Hrun & Hm2 & Hr2); try done.
  { by apply password_gate_correct. }
  { simpl. lia. }
  exists s2. simpl in Hrun, Hm2.
  destruct (getClip_exhausted flt' now' now2' token pw s2 _ k Hm2) as (s3 & Hget & Hgone);
    [done|lia|simpl; lia|].
  exists s3. split; [done|]. split; [done|].
  destruct Hgone as [Hgone Hd].
  { left. by apply (password_gate_correct options token now pw). }
  split; [done|]. intros Hdel. split; [done|].
  rewrite Hd. rewrite (del_reaches_ready flt' s s2) by congruence. by rewrite Hdel.
Qed.

(** ** The access counter *)

Lemma step_reads_memory c s token x :
  reads_of token c (fst (step c s)) = Some x →
  memoryClips (snd (step c s)) !! token = (if burnAfterReading x then None else Some x).
Proof.
  destruct c as [flt t now o|flt now now2 t pw|flt now t|flt t|flt now|now|b|k];
    try done.
  destruct (decide (t = token)) as [->|Hne]; [|by rewrite reads_of_other].
  simpl.
  destruct (getClip_outcome flt now now2 token pw s)
    as [[Hf ->]|[(c & s' & Hf & -> & Hm & Hd)|[(c & s' & Hf & -> & Hm & Hd)
         |(c & s' & Hf & -> & Hm & Hd)]]]; simpl; try done.
  rewrite (bool_decide_eq_true_2 (token = token)) by done. by intros [= <-].
Qed.

Lemma held_memory s token clip clip' :
  memoryClips s !! token = Some clip → held s token clip' → clip' = clip.
Proof. intros Hm [H|[H _]]; congruence. Qed.

Lemma step_resident c s token clip clip1 :
  creates token c = false →
  memoryClips s !! token = Some clip →
  memoryClips (snd (step c s)) !! token = Some clip1 →
  accessCount clip1 =
  accessCount clip + match reads_of token c (fst (step c s)) with Some _ => 1 | None => 0 end.
Proof.
  intros Hc Hm Hm1.
  destruct (reads_of token c (fst (step c s))) as [x|] eqn:Hr.
  - pose proof (step_reads_memory c s token x Hr) as Hx. rewrite Hm1 in Hx.
    destruct (burnAfterReading x); [done|]. injection Hx as ->.
    destruct (step_reads c s token x Hr) as (c0 & Hheld & ->).
    by rewrite (held_memory s token clip c0 Hm Hheld).
  - destruct (step_memory c s token clip1 Hc Hm1) as [Hheld|[Hr' _]]; [|congruence].
    rewrite (held_memory s token clip clip1 Hm Hheld). lia.
Qed.

Lemma snd_run_cons c cs s : snd (run (c :: cs) s) = snd (run cs (snd (step c s))).
Proof. simpl. destruct (step c s) as [r s1]; simpl. by destruct (run cs s1). Qed.

Lemma successes_nonneg token cs : ∀ s, 0 ≤ successes token cs s.
Proof.
  induction cs as [|c cs IH]; intros s; simpl; [done|].
  specialize (IH (snd (step c s))).
  destruct (reads_of token c (fst (step c s))); lia.
Qed.

Lemma run_resident token cs :
  ∀ s clip clip',
    Forall (λ c, creates token c = false) cs →
    memoryClips s !! token = Some clip →
    resident token cs s →
    memoryClips (snd (run cs s)) !! token = Some clip' →
    accessCount clip' = accessCount clip + successes token cs s.
Proof.
  induction cs as [|c cs IH]; intros s clip clip' Hcs Hm Hres Hm'.
  - simpl in *. simplify_eq. lia.
  - apply Forall_cons in Hcs as [Hc Hcs]. destruct Hres as [[clip1 Hm1] Hres].
    rewrite snd_run_cons in Hm'.
    rewrite (IH _ clip1 clip' Hcs Hm1 Hres Hm').
    rewrite (step_resident c s token clip clip1 Hc Hm Hm1). simpl. lia.
Qed.

(** C7 (amended). Take any token and any call that does not create it
    anew.  The call hands out a clip only from a [getClip] that passes every
    check, and then the clip handed out carries the [accessCount] of the copy
    that the store was holding plus exactly 1.  A copy found in the Fast Tier
    after the call is the copy held before (possibly the Durable Tier copy,
    restored as it was) or the clip just handed out; a copy found in the
    Durable Tier after the call is the Durable Tier copy from before or the
    clip just handed out.  So [getClip] calls that fail, [getClipInfo],
    [deleteClip], [getStats] and the sweeper never alter a stored
    [accessCount].  Along any run of such calls during which the clip stays in
    the Fast Tier, its [accessCount] is its initial value plus the number of
    clips handed out, hence never decreases. *)
Theorem accessCount_changes_only_on_successful_reads token :
  (∀ c s clip',
     creates token c = false →
     (reads_of token c (fst (step c s)) = Some clip' →
        ∃ clip, held s token clip ∧ accessCount clip' = accessCount clip + 1)
     ∧ (memoryClips (snd (step c s)) !! token = Some clip' →
        held s token clip' ∨ reads_of token c (fst (step c s)) = Some clip')
     ∧ (durable (snd (step c s)) token = Some clip' →
        durable s token = Some clip' ∨ reads_of token c (fst (step c s)) = Some clip'))
  ∧ (∀ cs s clip clip',
       Forall (λ c, creates token c = false) cs →
       memoryClips s !! token = Some clip →
       resident token cs s →
       memoryClips (snd (run cs s)) !! token = Some clip' →
       accessCount clip' = accessCount clip + successes token cs s
       ∧ accessCount clip ≤ accessCount clip').
Proof.
  split.
  - intros c s clip' Hc. split; [|split].
    + intros Hr. destruct (step_reads c s token clip' Hr) as (clip & Hheld & ->).
      by exists clip.
    + intros Hm. destruct (step_memory c s token clip' Hc Hm) as [?|[? _]]; [by left|by right].
    + intros Hd. destruct (step_durable c s token clip' Hc Hd) as [?|[? _]]; [by left|by right].
  - intros cs s clip clip' Hcs Hm Hres Hm'.
    pose proof (run_resident token cs s clip clip' Hcs Hm Hres Hm') as H.
    pose proof (successes_nonneg token cs s). split; [done|lia].
Qed.

(** ** The store without a reachable Redis *)

Lemma not_ready_reaches flt s :
  redis_ready s = false →
  get_reaches flt s = false ∧ setex_reaches flt s = false ∧ del_reaches flt s = false.
Proof. unfold get_reaches, setex_reaches, del_reaches. by intros ->. Qed.

Lemma getStats_eq flt now s :
  getStats flt now s =
  (Return {|
     totalClips := Z.of_nat (length (snd <$> map_to_list (memoryClips s)));
     activeClips :=
       Z.of_nat (length (filter (λ clip, now < expiresAt clip)
                                (snd <$> map_to_list (memoryClips s))));
     expiredClips :=
       Z.of_nat (length (snd <$> map_to_list (memoryClips s)))
       - Z.of_nat (length (filter (λ clip, now < expiresAt clip)
                                  (snd <$> map_to_list (memoryClips s))));
     oldestClip :=
       math_min (createdAt <$> filter (λ clip, now < expiresAt clip)
                                      (snd <$> map_to_list (memoryClips s)));
     totalAccesses :=
       foldl (λ sum clip, sum + accessCount clip) 0
             (filter (λ clip, now < expiresAt clip) (snd <$> map_to_list (memoryClips s)));
     stat_redisConnected := redisConnected s;
     stat_memoryClips := Z.of_nat (length (snd <$> map_to_list (memoryClips s)));
     redisClips :=
       if redis_ready s && negb (keys_fails flt)
       then Z.of_nat (size (default ∅ (redis s)))
       else 0
   |}, s).
Proof.
  unfold getStats, redis_ready; unfold_M.
  destruct s as [m [db|] [|]]; simpl; try reflexivity.
  destruct (keys_fails flt); simpl; [reflexivity|].
  by rewrite (length_fmap fst (map_to_list db)), (length_map_to_list db).
Qed.

(** X1. While Redis is not reachable (no client, or the flag is clear),
    every method of [HybridClipStorage] computes what the method of the same
    name of the memory-only [ClipStorage] computes on the Fast Tier map, for
    every outcome of the Redis commands, and leaves the Redis side of the
    store untouched. *)
Theorem hybrid_without_redis_is_ClipStorage s flt :
  redis_ready s = false →
  (∀ token now options,
     createClip flt token now options s =
     let r := ClipStorage.createClip hashPassword token now options (memoryClips s) in
     (Return (fst r), mkStore (snd r) (redis s) (redisConnected s)))
  ∧ (∀ now now2 token pw,
       getClip flt now now2 token pw s =
       let r := ClipStorage.getClip hashPassword now token pw (memoryClips s) in
       (Return (fst r), mkStore (snd r) (redis s) (redisConnected s)))
  ∧ (∀ now token,
       getClipInfo flt now token s =
       (Return (ClipStorage.getClipInfo now token (memoryClips s)), s))
  ∧ (∀ token,
       deleteClip flt token s =
       let r := ClipStorage.deleteClip token (memoryClips s) in
       (Return (fst r), mkStore (snd r) (redis s) (redisConnected s)))
  ∧ (∀ now,
       cleanupExpiredClips now s =
       (Return tt,
        mkStore (ClipStorage.cleanupExpiredClips now (memoryClips s))
                (redis s) (redisConnected s)))
  ∧ (∀ now, ∃ st,
       getStats flt now s = (Return st, s)
       ∧ ClipStorage.getStats now (memoryClips s) =
           ClipStorage.mkStats (totalClips st) (activeClips st) (expiredClips st)
             (oldestClip st) (totalAccesses st)
       ∧ stat_memoryClips st = totalClips st
       ∧ redisClips st = 0).
Proof.
  intros Hr. destruct (not_ready_reaches flt s Hr) as (Hg & Hs & Hd).
  split; [|split; [|split; [|split; [|split]]]].
  - intros token now options. rewrite createClip_eq. unfold after_store, setex_reaches.
    rewrite redis_ready_set_memoryClips, Hr. reflexivity.
  - intros now now2 token pw. rewrite getClip_eq. unfold found, ClipStorage.getClip.
    rewrite Hg. destruct (memoryClips s !! token) as [clip|] eqn:Hm.
    2:{ simpl. by destruct s. }
    cbv zeta. rewrite (set_memoryClips_id s token clip Hm).
    fold (verifyPassword (default "" pw) (default "" (password clip))).
    fold (password_gate clip pw) (max_gate clip) (bump clip).
    unfold after_delete, after_store, del_reaches, setex_reaches.
    rewrite !redis_ready_set_memoryClips, Hr. simpl.
    destruct (expiresAt clip <? now); [done|].
    destruct (password_gate clip pw); [by destruct s|].
    destruct (max_gate clip); [done|].
    destruct (burnAfterReading clip); simpl; [|done].
    unfold redis_ready in Hr |- *. simpl. by rewrite Hr.
  - intros now token. rewrite getClipInfo_eq. unfold found, ClipStorage.getClipInfo.
    rewrite Hg. by destruct (memoryClips s !! token).
  - intros token. rewrite deleteClip_eq, Hd; simpl. by rewrite orb_false_r.
  - done.
  - intros now. rewrite getStats_eq. eexists. split; [reflexivity|]. simpl.
    split; [done|]. split; [done|]. by rewrite Hr.
Qed.

(** ** Restore from the Durable Tier *)


(** ** Calls on one token leave the other tokens alone *)

Lemma step_state_other_delete flt t s token :
  t ≠ token →
  memoryClips (snd (step (DeleteClip flt t) s)) !! token = memoryClips s !! token
  ∧ durable (snd (step (DeleteClip flt t) s)) token = durable s token.
Proof.
  intros Hne. simpl. rewrite deleteClip_eq. fold (after_delete flt t s). simpl.
  rewrite durable_after_delete, lookup_delete_ne by done.
  rewrite (bool_decide_eq_false_2 (t = token)) by done. by rewrite andb_false_r.
Qed.

(** X3. A call that names one token ([createClip], [getClip],
    [getClipInfo], [deleteClip], or the expiry of a key on the server), and
    likewise [getStats] and the connection events, leaves the copies of every
    other token in both tiers as they were.  Only the sweeper acts on
    tokens it is not given. *)
Theorem calls_leave_other_tokens_alone c s token :
  (∀ now, c ≠ Sweep now) →
  call_token c ≠ Some token →
  memoryClips (snd (step c s)) !! token = memoryClips s !! token
  ∧ durable (snd (step c s)) token = durable s token.
Proof.
  intros Hsweep Hne.
  destruct c as [flt t now o|flt now now2 t pw|flt now t|flt t|flt now|now|b|k];
    simpl in Hne.
  - apply step_state_other_create. congruence.
  - cbn [step]. rewrite snd_respond. apply getClip_state_other. congruence.
  - simpl. by rewrite getClipInfo_eq.
  - apply step_state_other_delete. congruence.
  - cbn [step]. by rewrite snd_respond, getStats_state.
  - by destruct (Hsweep now).
  - done.
  - simpl. split; [done|]. unfold durable; simpl.
    destruct (redis s) as [db|]; simpl; [|done].
    rewrite lookup_delete_ne; [done|congruence].
Qed.

(** ** The mirror never runs ahead *)

Lemma step_mirror_behind c s token :
  creates token c = false →
  mirror_behind s token → mirror_behind (snd (step c s)) token.
Proof.
  intros Hc Hinv fast slow Hm Hd.
  destruct (step_durable c s token slow Hc Hd) as [Hd0|[Hr (c0 & Hheld & ->)]].
  - destruct (step_memory c s token fast Hc Hm) as [[Hm0|[Hm0 Hd1]]|[Hr (c0 & Hheld & ->)]].
    + by apply Hinv.
    + assert (fast = slow) as -> by congruence. lia.
    + destruct Hheld as [Hm0|[Hm0 Hd1]].
      * specialize (Hinv c0 slow Hm0 Hd0). simpl. lia.
      * assert (c0 = slow) as -> by congruence. simpl. lia.
  - pose proof (step_reads_memory c s token _ Hr) as Hx. rewrite Hm in Hx.
    destruct (burnAfterReading (bump c0)); [done|]. injection Hx as ->. lia.
Qed.

(** X4. Along any run that does not create the token again, the
    [accessCount] of the Durable Tier copy never exceeds that of the Fast
    Tier copy; this holds in particular from the creation of a clip under a
    token that the Durable Tier did not hold. *)
Theorem durable_count_never_exceeds_fast_count cs s token :
  Forall (λ c, creates token c = false) cs →
  (mirror_behind s token → mirror_behind (snd (run cs s)) token)
  ∧ (∀ flt now options,
       durable s token = None →
       mirror_behind
         (snd (run cs (snd (createClip flt token now options s)))) token).
Proof.
  intros Hcs.
  assert (Hrun : ∀ s0, mirror_behind s0 token → mirror_behind (snd (run cs s0)) token).
  { clear s. induction Hcs as [|c cs Hc Hcs IH]; intros s0 Hinv; [done|].
    rewrite snd_run_cons. apply IH. by apply step_mirror_behind. }
  split; [apply Hrun|].
  intros flt now options Hfresh. apply Hrun.
  rewrite createClip_eq; simpl. intros fast slow.
  rewrite memoryClips_after_store, memoryClips_set_memoryClips, lookup_insert_eq.
  rewrite durable_after_store, durable_set_memoryClips, Hfresh.
  intros [= <-] Hd.
  match type of Hd with (if ?b then _ else _) = _ => destruct b end; [|done].
  injection Hd as <-. lia.
Qed.

(** ** Only the counter of a clip changes *)

Lemma step_resident_clip c s token clip clip1 :
  creates token c = false →
  memoryClips s !! token = Some clip →
  memoryClips (snd (step c s)) !! token = Some clip1 →
  clip1 = with_count clip (accessCount clip1).
Proof.
  intros Hc Hm Hm1.
  destruct (step_memory c s token clip1 Hc Hm1) as [Hheld|[_ (c0 & Hheld & ->)]].
  - rewrite (held_memory s token clip clip1 Hm Hheld). by rewrite with_count_id.
  - by rewrite (held_memory s token clip c0 Hm Hheld).
Qed.

(** X5. Along any run that does not create the token again and during
    which the clip stays in the Fast Tier, the clip found at the end is the
    initial clip with nothing but its [accessCount] changed: id, content,
    content type, both dates, [maxAccess], the password digest and the burn
    flag are the ones it was stored with. *)
Theorem stored_clip_changes_only_its_counter token cs :
  ∀ s clip clip',
    Forall (λ c, creates token c = false) cs →
    memoryClips s !! token = Some clip →
    resident token cs s →
    memoryClips (snd (run cs s)) !! token = Some clip' →
    clip' = with_count clip (accessCount clip + successes token cs s).
Proof.
  induction cs as [|c cs IH]; intros s clip clip' Hcs Hm Hres Hm'.
  - simpl in *. simplify_eq. by rewrite Z.add_0_r, with_count_id.
  - apply Forall_cons in Hcs as [Hc Hcs]. destruct Hres as [[clip1 Hm1] Hres].
    rewrite snd_run_cons in Hm'.
    rewrite (IH _ clip1 clip' Hcs Hm1 Hres Hm').
    rewrite (step_resident_clip c s token clip clip1 Hc Hm Hm1) at 1.
    rewrite (step_resident c s token clip clip1 Hc Hm Hm1).
    unfold with_count; simpl. f_equal. lia.
Qed.

(** ** The sweeper *)

Lemma lookup_cleanup now s token :
  memoryClips (snd (cleanupExpiredClips now s)) !! token =
  (clip ← memoryClips s !! token; if expiresAt clip <? now then None else Some clip).
Proof.
  simpl. rewrite map_lookup_filter.
  destruct (memoryClips s !! token) as [clip|]; simpl; [|done].
  destruct (expiresAt clip <? now) eqn:E.
  - apply Z.ltb_lt in E. by rewrite option_guard_False by (simpl; lia).
  - apply Z.ltb_ge in E. by rewrite option_guard_True by (simpl; lia).
Qed.

Lemma store_eq s s' :
  memoryClips s = memoryClips s' → redis s = redis s' →
  redisConnected s = redisConnected s' → s = s'.
Proof. destruct s, s'; simpl. by intros -> -> ->. Qed.

(** X6. The sweeper removes from the Fast Tier exactly the clips whose
    [expiresAt] lies before the given instant and keeps every other clip as
    it is; it never touches the Durable Tier or the connection flag, and a
    clip that expires at that very instant is kept. *)
Theorem cleanupExpiredClips_removes_exactly_the_expired now s :
  ∃ s',
    cleanupExpiredClips now s = (Return tt, s')
    ∧ redis s' = redis s
    ∧ redisConnected s' = redisConnected s
    ∧ ∀ token,
        memoryClips s' !! token =
        (clip ← memoryClips s !! token;
         if expiresAt clip <? now then None else Some clip).
Proof.
  eexists. split; [reflexivity|]. split; [done|]. split; [done|].
  intros token. apply (lookup_cleanup now s token).
Qed.

(** X7. Sweeping twice is sweeping once at the later instant, in either
    order; in particular the sweeper is idempotent. *)
Theorem cleanupExpiredClips_composes now1 now2 s :
  now1 ≤ now2 →
  snd (cleanupExpiredClips now2 (snd (cleanupExpiredClips now1 s))) =
    snd (cleanupExpiredClips now2 s)
  ∧ snd (cleanupExpiredClips now1 (snd (cleanupExpiredClips now2 s))) =
      snd (cleanupExpiredClips now2 s).
Proof.
  intros Hle. split; (apply store_eq; [|done|done]); apply map_eq; intros token;
    rewrite !lookup_cleanup;
    destruct (memoryClips s !! token) as [clip|]; simpl; try done.
  - destruct (expiresAt clip <? now1) eqn:E1; simpl.
    + apply Z.ltb_lt in E1.
      by replace (expiresAt clip <? now2) with true by (symmetry; apply Z.ltb_lt; lia).
    + done.
  - destruct (expiresAt clip <? now2) eqn:E2; simpl; [done|].
    apply Z.ltb_ge in E2.
    by replace (expiresAt clip <? now1) with false by (symmetry; apply Z.ltb_ge; lia).
Qed.

(** X8. Whether the sweeper has run or not makes no difference to a
    reader served by the Fast Tier alone: when the lookup cannot reach Redis
    (not connected, no client, or a [get] that raises), [getClip] and
    [getClipInfo] at an instant return the same thing after a sweep at an
    earlier or equal instant as without that sweep. *)
Theorem sweeping_does_not_change_reads s flt now' now now2 token pw :
  get_reaches flt s = false →
  now' ≤ now →
  fst (getClip flt now now2 token pw (snd (cleanupExpiredClips now' s))) =
    fst (getClip flt now now2 token pw s)
  ∧ fst (getClipInfo flt now token (snd (cleanupExpiredClips now' s))) =
      fst (getClipInfo flt now token s).
Proof.
  intros Hg Hle.
  assert (Hg' : get_reaches flt (snd (cleanupExpiredClips now' s)) = false) by done.
  assert (Hfound : found flt (snd (cleanupExpiredClips now' s)) token =
            (clip ← found flt s token;
             if expiresAt clip <? now' then None else Some clip)).
  { unfold found. rewrite Hg', Hg, lookup_cleanup.
    destruct (memoryClips s !! token) as [clip|]; simpl; [|done].
    by destruct (expiresAt clip <? now'). }
  rewrite !getClip_eq, !getClipInfo_eq, Hfound.
  destruct (found flt s token) as [clip|]; simpl; [|done].
  destruct (expiresAt clip <? now') eqn:E; simpl.
  - apply Z.ltb_lt in E.
    by replace (expiresAt clip <? now) with true by (symmetry; apply Z.ltb_lt; lia).
  - destruct (expiresAt clip <? now); [done|].
    destruct (password_gate clip pw); [done|].
    by destruct (max_gate clip).
Qed.

(** ** Statistics *)




(** X10. The three expiry tests do not agree on a clip whose [expiresAt]
    equals the current instant: the sweeper keeps it and the read path still
    treats it as alive ([getClipInfo] reports it), while [getStats] already
    counts it among the expired clips. *)
Theorem clip_expiring_now_is_kept_but_counted_expired s flt token clip :
  memoryClips s !! token = Some clip →
  memoryClips (snd (cleanupExpiredClips (expiresAt clip) s)) !! token = Some clip
  ∧ getClipInfo flt (expiresAt clip) token s = (Return (Some (info_of clip)), s)
  ∧ ∃ st, getStats flt (expiresAt clip) s = (Return st, s) ∧ 1 ≤ expiredClips st.
Proof.
  intros Hm. split; [|split].
  - rewrite lookup_cleanup, Hm; simpl. by rewrite Z.ltb_irrefl.
  - rewrite getClipInfo_eq, (found_memory flt s token clip Hm); simpl.
    by rewrite Z.ltb_irrefl.
  - rewrite getStats_eq. eexists. split; [reflexivity|]. simpl.
    assert (Hin : clip ∈ snd <$> map_to_list (memoryClips s)).
    { apply list_elem_of_fmap. exists (token, clip). split; [done|].
      by apply elem_of_map_to_list. }
    pose proof (length_filter_lt (λ c, expiresAt clip < expiresAt c) _ clip Hin) as Hlt.
    simpl in Hlt. specialize (Hlt (Z.lt_irrefl _)). lia.
Qed.





(** ** The mirror write and its TTL *)



(** ** Falsy options *)



(** X14. [createClip] treats the falsy values of its options as absent:
    with [expirationMinutes] absent or 0 the clip expires one hour after its
    creation, and with [password] absent or empty no digest is stored, so
    that the password check lets every request through, with or without a
    password.  A password that is not empty is never stored itself: the
    stored value is its digest. *)
Theorem createClip_treats_falsy_options_as_absent s flt token now options :
  ∃ clip,
    memoryClips (snd (createClip flt token now options s)) !! token = Some clip
    ∧ (opt_expirationMinutes options = None ∨ opt_expirationMinutes options = Some 0 →
       expiresAt clip = now + 3600000)
    ∧ (opt_password options = None ∨ opt_password options = Some "" →
       password clip = None ∧ ∀ pw, password_gate clip pw = false)
    ∧ (∀ p, opt_password options = Some p → p ≠ "" →
            password clip = Some (hashPassword p)).
Proof.
  rewrite createClip_eq; simpl. exists (new_clip token now options).
  split; [by store_fields|]. split; [|split].
  - intros [Hm|Hm]; simpl; by rewrite Hm.
  - intros [Hp|Hp]; unfold password_gate; simpl; by rewrite Hp.
  - intros p Hp Hne. simpl. rewrite Hp; simpl.
    by rewrite (proj2 (String.eqb_neq p "") Hne).
Qed.

(** ** The connection set-up *)

Lemma step_method_shape c s :
  is_method c = true →
  redisConnected (snd (step c s)) = redisConnected s
  ∧ bool_decide (is_Some (redis (snd (step c s)))) = bool_decide (is_Some (redis s)).
Proof.
  assert (Hstore : ∀ flt t clip n s0,
            redisConnected (after_store flt t clip n s0) = redisConnected s0
            ∧ bool_decide (is_Some (redis (after_store flt t clip n s0))) =
                bool_decide (is_Some (redis s0))).
  { intros flt t clip n s0. unfold after_store. destruct (setex_reaches flt s0); [|done].
    by destruct s0 as [m [db|] b]. }
  assert (Hdel : ∀ flt t s0,
            redisConnected (after_delete flt t s0) = redisConnected s0
            ∧ bool_decide (is_Some (redis (after_delete flt t s0))) =
                bool_decide (is_Some (redis s0))).
  { intros flt t s0. unfold after_delete; simpl. destruct (del_reaches flt s0); [|done].
    by destruct (redis s0). }
  intros Hc.
  destruct c as [flt t now o|flt now now2 t pw|flt now t|flt t|flt now|now|b|k];
    try done.
  - simpl. rewrite createClip_eq; simpl.
    exact (Hstore flt t _ _ (set_memoryClips (insert t (new_clip t now o)) s)).
  - simpl. rewrite getClip_eq. destruct (found flt s t) as [clip|]; [|done].
    cbv zeta.
    destruct (expiresAt clip <? now);
      [exact (Hdel flt t (set_memoryClips (insert t clip) s))|].
    destruct (password_gate clip pw); [done|].
    destruct (max_gate clip);
      [exact (Hdel flt t (set_memoryClips (insert t clip) s))|].
    simpl.
    pose proof (Hstore flt t (bump clip) ((expiresAt clip - now2) / 1000)
                  (set_memoryClips (insert t (bump clip))
                     (set_memoryClips (insert t clip) s))) as [H1 H2].
    destruct (burnAfterReading clip); [|by split].
    destruct (Hdel flt t (after_store flt t (bump clip) ((expiresAt clip - now2) / 1000)
                (set_memoryClips (insert t (bump clip))
                   (set_memoryClips (insert t clip) s)))) as [-> ->].
    by split.
  - simpl. by rewrite getClipInfo_eq.
  - simpl. rewrite deleteClip_eq. apply (Hdel flt t s).
  - cbn [step]. by rewrite snd_respond, getStats_state.
Qed.

(** X15. [initializeRedis], run on a freshly constructed store, never
    raises and leaves the store either connected with a client or
    memory-only without one, never in between: the flag is set exactly when
    the URL of the current environment ([UPSTASH_REDIS_URL] in production,
    [REDIS_URL] otherwise) is present and not empty and [connect] succeeds.  No
    method of the store changes the flag or the presence of the client, so
    this agreement holds after every run of methods. *)
Theorem initializeRedis_leaves_flag_and_client_in_agreement
    node_env upstash_redis_url redis_url server connect_fails :
  ∃ s',
    initializeRedis node_env upstash_redis_url redis_url server connect_fails constructed =
      (Return tt, s')
    ∧ memoryClips s' = ∅
    ∧ redisConnected s' =
        truthy_string (if bool_decide (node_env = Some "production")
                       then upstash_redis_url else redis_url)
        && negb connect_fails
    ∧ redis s' = (if redisConnected s' then Some server else None)
    ∧ ∀ cs, Forall (λ c, is_method c = true) cs → coherent (snd (run cs s')).
Proof.
  assert (Hrun : ∀ cs, Forall (λ c, is_method c = true) cs →
            ∀ s0, coherent s0 → coherent (snd (run cs s0))).
  { intros cs Hcs. induction Hcs as [|c cs Hc Hcs IH]; intros s0 Hco; [done|].
    rewrite snd_run_cons. apply IH. unfold coherent in *.
    by destruct (step_method_shape c s0 Hc) as [-> ->]. }
  unfold initializeRedis, constructed; unfold_M.
  destruct (truthy_string _) eqn:Hurl; simpl.
  - destruct connect_fails; simpl.
    + eexists. split; [reflexivity|]. simpl. repeat split; try done.
      intros cs Hcs. by apply Hrun.
    + eexists. split; [reflexivity|]. simpl. repeat split; try done.
      intros cs Hcs. by apply Hrun.
  - eexists. split; [reflexivity|]. simpl. repeat split; try done.
    intros cs Hcs. by apply Hrun.
Qed.

(** ** A hit in the Fast Tier does not depend on Redis *)

(** X18. For a token that the Fast Tier holds, the answer of [getClip] and
    the Fast Tier it leaves are those of the memory-only
    [ClipStorage.getClip], and the answer of [getClipInfo] is that of
    [ClipStorage.getClipInfo], whatever the state of the connection, the
    contents of the server and the outcome of the Redis commands. *)
Theorem fast_tier_hit_ignores_redis s flt token clip :
  memoryClips s !! token = Some clip →
  (∀ now now2 pw,
     let r := ClipStorage.getClip hashPassword now token pw (memoryClips s) in
     fst (getClip flt now now2 token pw s) = Return (fst r)
     ∧ memoryClips (snd (getClip flt now now2 token pw s)) = snd r)
  ∧ (∀ now,
       getClipInfo flt now token s =
       (Return (ClipStorage.getClipInfo now token (memoryClips s)), s)).
Proof.
  intros Hm. split.
  - intros now now2 pw. rewrite getClip_eq, (found_memory flt s token clip Hm).
    unfold ClipStorage.getClip. rewrite Hm. cbv zeta.
    rewrite (set_memoryClips_id s token clip Hm).
    fold (verifyPassword (default "" pw) (default "" (password clip))).
    fold (password_gate clip pw) (max_gate clip) (bump clip).
    destruct (expiresAt clip <? now); [done|].
    destruct (password_gate clip pw); [done|].
    destruct (max_gate clip); [done|].
    destruct (burnAfterReading clip) eqn:Hb; simpl; by rewrite Hb, memoryClips_after_store.
  - intros now. rewrite getClipInfo_eq, (found_memory flt s token clip Hm).
    unfold ClipStorage.getClipInfo. by rewrite Hm.
Qed.

(** ** What a call can raise *)

(** X19. [getClip], [getClipInfo], [deleteClip], [getStats] and the
    sweeper never hand an exception to their caller: every Redis command that
    raises, and the [TypeError] of a command issued on a missing client, is
    caught inside the method, for every state of the store and every outcome
    of the commands.  [createClip] raises in exactly one case, when its
    [expiresAt] is not a valid date: the [RangeError] comes from its log
    line, after the Fast Tier write, while the same error inside
    [storeInRedis] is caught; the [createClip] of [ClipStorage] raises in
    that case too.  With valid dates the method is [createClip] as written
    above. *)
Theorem calls_raise_only_on_invalid_expiry :
  (∀ c s err, is_create c = false → fst (step c s) ≠ Raised err)
  ∧ (∀ flt token now options s,
       Dated.valid_date now = true →
       let expiresAt := now + number_or (opt_expirationMinutes options) 60 * 60 * 1000 in
       fst (Dated.createClip hashPassword flt token now options s) =
         (if Dated.valid_date expiresAt then Return (token, expiresAt)
          else Throw "RangeError: Invalid time value")
       ∧ memoryClips (snd (Dated.createClip hashPassword flt token now options s))
           !! token = Some (new_clip token now options)
       ∧ (Dated.valid_date expiresAt = false →
          redis (snd (Dated.createClip hashPassword flt token now options s)) = redis s)
       ∧ (Dated.valid_date expiresAt = true →
          Dated.createClip hashPassword flt token now options s =
          createClip flt token now options s)
       ∧ fst (Dated.createClip_memory hashPassword token now options (memoryClips s)) =
           (if Dated.valid_date expiresAt then Return (token, expiresAt)
            else Throw "RangeError: Invalid time value")).
Proof.
  split.
  - intros c s err Hc.
    destruct c as [flt t now o|flt now now2 t pw|flt now t|flt t|flt now|now|b|k];
      simpl; try done.
    + rewrite getClip_eq. destruct (found flt s t) as [clip|]; [|done]. cbv zeta.
      destruct (expiresAt clip <? now); [done|].
      destruct (password_gate clip pw); [done|].
      by destruct (max_gate clip).
    + by rewrite getClipInfo_eq.
    + by rewrite deleteClip_eq.
    + by rewrite getStats_eq.
  - intros flt token now options s Hnow expiresAt.
    destruct (Dated.valid_date expiresAt) eqn:Hexp.
    + rewrite (Dated_createClip_valid flt token now options s Hnow Hexp).
      rewrite createClip_eq. simpl.
      rewrite memoryClips_after_store, memoryClips_set_memoryClips, lookup_insert_eq.
      unfold Dated.createClip_memory. fold expiresAt. rewrite Hexp. done.
    + unfold Dated.createClip_memory. fold expiresAt. rewrite Hexp.
      unfold Dated.createClip, Dated.storeInRedis, Dated.toISOString.
      unfold_M. simpl. fold expiresAt. rewrite Hnow, Hexp.
      destruct (negb (redisConnected s) || negb (bool_decide (is_Some (redis s))));
        simpl; rewrite lookup_insert_eq; done.
Qed.

End HybridClipStorage.

(** ** Closed instances *)

(** C2, as stated, fails: an expired clip that both tiers hold is answered
    with not-found, but when the Redis [del] command raises the error is
    caught and the Durable Tier keeps its copy. *)
Lemma expired_clip_left_in_durable_tier :
  let s := snd (createClip sample_digest no_faults sample_token 0
                  (plain_options "hello") connected_store) in
  let r := getClip sample_digest del_fault 3600001 3600001 sample_token None s in
  found del_fault s sample_token = Some (sample_clip "hello" 0)
  ∧ expiresAt (sample_clip "hello" 0) < 3600001
  ∧ fst r = Return None
  ∧ memoryClips (snd r) !! sample_token = None
  ∧ durable (snd r) sample_token = Some (sample_clip "hello" 0).
Proof. by vm_compute. Qed.

(** C3, as stated, fails: the first read of a burn-after-reading clip
    removes it from the Fast Tier, but the Redis [del] command raises and the
    Durable Tier keeps its copy, so the next [getClip] restores the clip and
    returns its content a second time. *)
Lemma burned_clip_served_again :
  fst (run sample_digest
         [CreateClip no_faults sample_token 0 (burn_options "secret");
          GetClip del_fault 1000 1000 sample_token None;
          GetClip no_faults 2000 2000 sample_token None]
         connected_store)
  = [Created sample_token 3600000;
     GotClip (Some (mkClip sample_token "secret" text 0 3600000 1 None None true));
     GotClip (Some (mkClip sample_token "secret" text 0 3600000 2 None None true))].
Proof. by vm_compute. Qed.

(** C4, as stated, fails: a clip created with [maxAccess = 2] and
    [burnAfterReading = true] answers one read, not two. *)
Lemma burn_clip_with_limit_two_reads_once :
  fst (run sample_digest
         [CreateClip no_faults sample_token 0
            (mkOptions "hello" None None None (Some true) (Some 2));
          GetClip no_faults 1000 1000 sample_token None;
          GetClip no_faults 2000 2000 sample_token None]
         memory_store)
  = [Created sample_token 3600000;
     GotClip (Some (mkClip sample_token "hello" text 0 3600000 1 (Some 2) None true));
     GotClip None].
Proof. by vm_compute. Qed.

(** C5, as stated, fails: right after the read that brings [accessCount] to
    [maxAccess = 1] the clip is still stored, and [getClipInfo] reports it. *)
Lemma clip_at_limit_still_stored :
  let s := snd (createClip sample_digest no_faults sample_token 0
                  (limited_options "hello" 1) memory_store) in
  let r := getClip sample_digest no_faults 1000 1000 sample_token None s in
  let clip := mkClip sample_token "hello" text 0 3600000 1 (Some 1) None false in
  fst r = Return (Some clip)
  ∧ memoryClips (snd r) !! sample_token = Some clip
  ∧ fst (getClipInfo no_faults 2000 sample_token (snd r)) = Return (Some (info_of clip)).
Proof. by vm_compute. Qed.

(** C7, as stated, fails: the mirror write of a successful read raises, so
    the Durable Tier keeps the copy with count 0; [deleteClip] then removes
    the Fast Tier copy while its Redis [del] raises; the next lookup restores
    the Durable Tier copy, and the [accessCount] that was 1 is now 0. *)
Lemma accessCount_drops_after_restore :
  fst (run sample_digest
         [CreateClip no_faults sample_token 0 (plain_options "hello");
          GetClip setex_fault 1000 1000 sample_token None;
          DeleteClip del_fault sample_token;
          GetClipInfo no_faults 2000 sample_token]
         connected_store)
  = [Created sample_token 3600000;
     GotClip (Some (sample_clip "hello" 1));
     Deleted true;
     GotInfo (Some (info_of (sample_clip "hello" 0)))].
Proof. by vm_compute. Qed.

(** C9, as stated, fails: the first [deleteClip] returns true and its Redis
    [del] raises, so the Durable Tier copy stays and a second [deleteClip]
    returns true again; and while that copy is there, a [deleteClip] whose
    [del] raises returns false. *)
Lemma second_deleteClip_returns_true :
  fst (run sample_digest
         [CreateClip no_faults sample_token 0 (plain_options "hello");
          DeleteClip del_fault sample_token;
          DeleteClip no_faults sample_token]
         connected_store)
  = [Created sample_token 3600000; Deleted true; Deleted true]
  ∧ let s := snd (run sample_digest
                    [CreateClip no_faults sample_token 0 (plain_options "hello");
                     DeleteClip del_fault sample_token]
                    connected_store) in
    durable s sample_token = Some (sample_clip "hello" 0)
    ∧ fst (deleteClip del_fault sample_token s) = Return false.
Proof. by vm_compute. Qed.

(** An instance of C1: a password-protected clip read back one second after
    its creation. *)
Lemma create_then_get_roundtrip_witness :
  valid_options (locked_options "hello" "hunter2") = true
  ∧ ∃ s1 clip s2,
      createClip sample_digest no_faults sample_token 0
        (locked_options "hello" "hunter2") connected_store =
        (Return (sample_token,
                 0 + number_or (opt_expirationMinutes (locked_options "hello" "hunter2")) 60
                     * 60 * 1000), s1)
      ∧ getClip sample_digest no_faults 1000 1000 sample_token (Some "hunter2") s1 =
          (Return (Some clip), s2)
      ∧ content clip = "hello"
      ∧ accessCount clip = 1.
Proof.
  split; [reflexivity|].
  apply (create_then_get_roundtrip sample_digest connected_store no_faults no_faults
           sample_token 0 1000 1000 (locked_options "hello" "hunter2") (Some "hunter2")).
  - reflexivity.
  - intros p H. simpl in H. by rewrite H.
  - by vm_compute.
Defined.

(** An instance of C2: an expired clip held by both tiers, read with all
    Redis commands working. *)
Lemma expired_clip_is_never_returned_witness :
  let s := snd (createClip sample_digest no_faults sample_token 0
                  (plain_options "hello") connected_store) in
  ∃ s', getClip sample_digest no_faults 3600001 3600001 sample_token None s = (Return None, s')
        ∧ memoryClips s' !! sample_token = None
        ∧ durable s' sample_token =
            (if del_reaches no_faults s then None else durable s sample_token)
        ∧ getClipInfo no_faults 3600001 sample_token s = (Return None, s).
Proof.
  intros s.
  apply (proj2 (expired_clip_is_never_returned sample_digest s no_faults 3600001 3600001
                  sample_token None) (sample_clip "hello" 0)).
  - by vm_compute.
  - by vm_compute.
Defined.

(** An instance of C3: a burn-after-reading clip locked with a password,
    tried once with a wrong password and then read with the right one, with
    all Redis commands working. *)
Lemma burn_after_reading_first_read_witness :
  let options := mkOptions "secret" None None (Some "hunter2") (Some true) None in
  let tries := [(no_faults, 500, 500, Some "letmein")] in
  valid_options options = true
  ∧ ∃ s1 clip s2,
      s1 = snd (createClip sample_digest no_faults sample_token 0 options connected_store)
      ∧ run sample_digest (attempts sample_token tries) s1 =
          (replicate (length tries) (GotClip None), s1)
      ∧ getClip sample_digest no_faults 1000 1000 sample_token (Some "hunter2") s1 =
          (Return (Some clip), s2)
      ∧ content clip = "secret"
      ∧ accessCount clip = 1
      ∧ memoryClips s2 !! sample_token = None
      ∧ (del_reaches no_faults connected_store = true
         ∨ (redis_ready connected_store = false
            ∧ durable connected_store sample_token = None) →
         absent s2 sample_token)
      ∧ (absent s2 sample_token →
         ∀ cs, Forall (λ c, creates sample_token c = false) cs →
               Forall2 (answers_not_found sample_token) cs (fst (run sample_digest cs s2))).
Proof.
  intros options tries. split; [reflexivity|].
  apply (burn_after_reading_first_read sample_digest connected_store no_faults no_faults
           sample_token 0 1000 1000 options (Some "hunter2") tries).
  - reflexivity.
  - reflexivity.
  - intros p H. simpl in H. by rewrite H.
  - by vm_compute.
  - repeat constructor; by vm_compute.
Defined.

(** An instance of C4: a clip with [maxAccess = 2] read three times. *)
Lemma max_access_allows_k_reads_witness :
  let reads := [(no_faults, 1000, 1000); (no_faults, 2000, 2000)] in
  valid_options (limited_options "hello" 2) = true
  ∧ ∃ s2 s3,
      run sample_digest (gets_at sample_token None reads)
        (snd (createClip sample_digest no_faults sample_token 0 (limited_options "hello" 2)
                connected_store)) =
        ((λ i, GotClip (Some (with_count
                                (new_clip sample_digest sample_token 0
                                   (limited_options "hello" 2))
                                (Z.of_nat i))))
           <$> seq 1 (length reads), s2)
      ∧ getClip sample_digest no_faults 3000 3000 sample_token None s2 = (Return None, s3)
      ∧ memoryClips s3 !! sample_token = None
      ∧ (del_reaches no_faults connected_store = true → absent s3 sample_token).
Proof.
  intros reads. split; [reflexivity|].
  apply (max_access_allows_k_reads sample_digest connected_store no_faults sample_token 0
           (limited_options "hello" 2) None 2 reads no_faults 3000 3000).
  - reflexivity.
  - reflexivity.
  - reflexivity.
  - intros p H. discriminate H.
  - reflexivity.
  - repeat constructor; by vm_compute.
Defined.

(** An instance of C5: the single permitted read of a clip with
    [maxAccess = 1]. *)
Lemma max_access_reached_deletes_on_next_read_witness :
  let s := snd (createClip sample_digest no_faults sample_token 0
                  (limited_options "hello" 1) memory_store) in
  let clip := mkClip sample_token "hello" text 0 3600000 1 (Some 1) None false in
  let s' := snd (getClip sample_digest no_faults 1000 1000 sample_token None s) in
  memoryClips s' !! sample_token = Some clip
  ∧ (∀ flt1 now1, now1 ≤ expiresAt clip →
       getClipInfo flt1 now1 sample_token s' = (Return (Some (info_of clip)), s'))
  ∧ (∀ flt1 now1 now1' pw1,
       ∃ s'', getClip sample_digest flt1 now1 now1' sample_token pw1 s' = (Return None, s'')
              ∧ (password_gate sample_digest clip pw1 = false ∨ expiresAt clip < now1 →
                 memoryClips s'' !! sample_token = None
                 ∧ durable s'' sample_token =
                     (if del_reaches flt1 s' then None else durable s' sample_token))).
Proof.
  intros s clip s'.
  apply (max_access_reached_deletes_on_next_read sample_digest s no_faults 1000 1000
           sample_token None clip s' 1).
  - by vm_compute.
  - reflexivity.
  - discriminate.
  - reflexivity.
  - reflexivity.
Defined.

(** An instance of C6: a clip locked with one password, read with
    another. *)
Lemma wrong_password_reads_as_not_found_witness :
  let s := snd (createClip sample_digest no_faults sample_token 0
                  (locked_options "hello" "hunter2") connected_store) in
  let clip := mkClip sample_token "hello" text 0 3600000 0 None
                (Some (sample_digest "hunter2")) false in
  fst (getClip sample_digest no_faults 1000 1000 sample_token (Some "letmein") s) = Return None
  ∧ (∀ s0 flt0 now0 now0' pw0, absent s0 sample_token →
       getClip sample_digest flt0 now0 now0' sample_token pw0 s0 = (Return None, s0))
  ∧ (1000 ≤ expiresAt clip →
       getClipInfo no_faults 1000 sample_token s = (Return (Some (info_of clip)), s)).
Proof.
  intros s clip.
  apply (wrong_password_reads_as_not_found sample_digest s no_faults 1000 1000
           sample_token (Some "letmein") clip).
  - by vm_compute.
  - reflexivity.
  - intros p [= <-]. by vm_compute.
Defined.

(** An instance of C7: two successful reads with a peek in between raise
    the counter of the Fast Tier copy from 0 to 2. *)
Lemma accessCount_changes_only_on_successful_reads_witness :
  let s := snd (createClip sample_digest no_faults sample_token 0
                  (plain_options "hello") connected_store) in
  let cs := [GetClip no_faults 1000 1000 sample_token None;
             GetClipInfo no_faults 1500 sample_token;
             GetClip no_faults 2000 2000 sample_token None] in
  successes sample_digest sample_token cs s = 2
  ∧ accessCount (sample_clip "hello" 2) =
      accessCount (sample_clip "hello" 0) + successes sample_digest sample_token cs s
  ∧ accessCount (sample_clip "hello" 0) ≤ accessCount (sample_clip "hello" 2).
Proof.
  intros s cs. split; [by vm_compute|].
  apply (proj2 (accessCount_changes_only_on_successful_reads sample_digest sample_token)
           cs s (sample_clip "hello" 0) (sample_clip "hello" 2)).
  - repeat constructor.
  - by vm_compute.
  - cbn [resident cs]. repeat split; vm_compute; eexists; reflexivity.
  - by vm_compute.
Defined.

(** ** The error middleware *)

(** X16. In production [errorHandler] never sends the stack, and a
    response with status 500 carries the fixed text and no details, whatever
    the error says.  The status is always 400, 413, 500 or the non-zero
    [statusCode] of the error. *)
Theorem errorHandler_hides_internal_errors_in_production now_iso err req_path :
  let r := ErrorHandler.errorHandler (Some "production") now_iso err req_path in
  ErrorHandler.body_stack (snd r) = None
  ∧ (fst r = 500 →
     ErrorHandler.error (snd r) = "Something went wrong on our end"
     ∧ ErrorHandler.details (snd r) = None)
  ∧ (fst r = 400 ∨ fst r = 413 ∨ fst r = 500
     ∨ (ErrorHandler.statusCode err = Some (fst r) ∧ fst r ≠ 0)).
Proof.
  unfold ErrorHandler.errorHandler, number_or, truthy_number.
  destruct (String.eqb (ErrorHandler.name err) "ValidationError");
    destruct (String.eqb (ErrorHandler.name err) "SyntaxError" && ErrorHandler.has_body err);
    destruct (String.eqb (ErrorHandler.name err) "PayloadTooLargeError");
    simpl; try (split; [done|]; split; [done|]; tauto).
  destruct (ErrorHandler.statusCode err) as [n|]; simpl.
  - destruct (n =? 0) eqn:E0; simpl.
    + split; [done|]. split; [done|]. tauto.
    + destruct (n =? 500) eqn:E; simpl.
      * split; [done|]. split; [done|]. right; right; right. split; [done|lia].
      * split; [done|]. split; [lia|]. right; right; right. split; [done|lia].
  - split; [done|]. split; [done|]. tauto.
Qed.

(** X17. An error made by [createError] is answered with its own status
    (500 when none or 0 was given) and without details; its message is the
    text of the response, or the default text when the message is empty,
    except for a status 500 in production; the stack is sent in development
    only. *)
Theorem errorHandler_reports_created_errors node_env now_iso trace msg code req_path :
  let r := ErrorHandler.errorHandler node_env now_iso
             (ErrorHandler.createError trace msg code) req_path in
  fst r = number_or code 500
  ∧ ErrorHandler.details (snd r) = None
  ∧ ErrorHandler.body_stack (snd r) =
      (if bool_decide (node_env = Some "development") then Some trace else None)
  ∧ (¬ (fst r = 500 ∧ node_env = Some "production") →
     ErrorHandler.error (snd r) =
       if ErrorHandler.truthy msg then msg else "Internal server error").
Proof.
  unfold ErrorHandler.errorHandler, ErrorHandler.createError, number_or, truthy_number.
  cbn [ErrorHandler.name ErrorHandler.message ErrorHandler.stack ErrorHandler.statusCode
       ErrorHandler.has_body String.eqb Ascii.eqb Bool.eqb andb].
  destruct code as [n|]; simpl;
    [destruct (n =? 0) eqn:E0; simpl; [|destruct (n =? 500) eqn:E; simpl]|];
    try (destruct (bool_decide (node_env = Some "production")) eqn:Hp; simpl);
    repeat split; try done;
    try (intros H; destruct H; apply bool_decide_eq_true in Hp; split; [lia|done]).
Qed.

(** ** Instances of the properties above *)

(** An instance of X1: creation on a store without Redis. *)
Lemma hybrid_without_redis_is_ClipStorage_witness :
  redis_ready memory_store = false
  ∧ createClip sample_digest del_fault sample_token 0 (plain_options "hello") memory_store =
      let r := ClipStorage.createClip sample_digest sample_token 0 (plain_options "hello")
                 (memoryClips memory_store) in
      (Return (fst r), mkStore (snd r) (redis memory_store) (redisConnected memory_store)).
Proof.
  split; [reflexivity|].
  apply (proj1 (hybrid_without_redis_is_ClipStorage sample_digest memory_store del_fault
                  eq_refl)).
Defined.


(** An instance of X3: deleting one token next to another. *)
Lemma calls_leave_other_tokens_alone_witness :
  let s := snd (createClip sample_digest no_faults sample_token 0
                  (plain_options "hello") connected_store) in
  memoryClips (snd (step sample_digest (DeleteClip no_faults other_token) s)) !! sample_token
    = memoryClips s !! sample_token
  ∧ durable (snd (step sample_digest (DeleteClip no_faults other_token) s)) sample_token
    = durable s sample_token.
Proof.
  intros s.
  apply (calls_leave_other_tokens_alone sample_digest (DeleteClip no_faults other_token)
           s sample_token).
  - intros now H. discriminate H.
  - intros H. discriminate H.
Defined.

(** An instance of X4: a read whose mirror write raises, after a creation
    on an empty server. *)
Lemma durable_count_never_exceeds_fast_count_witness :
  mirror_behind
    (snd (run sample_digest [GetClip setex_fault 1000 1000 sample_token None]
            (snd (createClip sample_digest no_faults sample_token 0
                    (plain_options "hello") connected_store)))) sample_token.
Proof.
  apply (proj2 (durable_count_never_exceeds_fast_count sample_digest
                  [GetClip setex_fault 1000 1000 sample_token None]
                  connected_store sample_token ltac:(repeat constructor))).
  reflexivity.
Defined.

(** An instance of X5: two reads with a peek in between. *)
Lemma stored_clip_changes_only_its_counter_witness :
  let s := snd (createClip sample_digest no_faults sample_token 0
                  (plain_options "hello") connected_store) in
  let cs := [GetClip no_faults 1000 1000 sample_token None;
             GetClipInfo no_faults 1500 sample_token;
             GetClip no_faults 2000 2000 sample_token None] in
  sample_clip "hello" 2 =
    with_count (sample_clip "hello" 0)
      (accessCount (sample_clip "hello" 0) + successes sample_digest sample_token cs s).
Proof.
  intros s cs.
  apply (stored_clip_changes_only_its_counter sample_digest sample_token cs s
           (sample_clip "hello" 0) (sample_clip "hello" 2)).
  - repeat constructor.
  - by vm_compute.
  - cbn [resident cs]. repeat split; vm_compute; eexists; reflexivity.
  - by vm_compute.
Defined.

(** An instance of X7: two sweeps, one minute apart. *)
Lemma cleanupExpiredClips_composes_witness :
  let s := snd (createClip sample_digest no_faults sample_token 0
                  (plain_options "hello") connected_store) in
  snd (cleanupExpiredClips 3660000 (snd (cleanupExpiredClips 3600000 s))) =
    snd (cleanupExpiredClips 3660000 s)
  ∧ snd (cleanupExpiredClips 3600000 (snd (cleanupExpiredClips 3660000 s))) =
      snd (cleanupExpiredClips 3660000 s).
Proof.
  intros s. apply (cleanupExpiredClips_composes 3600000 3660000 s). by vm_compute.
Defined.

(** An instance of X8: a read after a sweep on a store without Redis. *)
Lemma sweeping_does_not_change_reads_witness :
  let s := snd (createClip sample_digest no_faults sample_token 0
                  (plain_options "hello") memory_store) in
  fst (getClip sample_digest no_faults 2000 2000 sample_token None
         (snd (cleanupExpiredClips 1000 s))) =
    fst (getClip sample_digest no_faults 2000 2000 sample_token None s)
  ∧ fst (getClipInfo no_faults 2000 sample_token (snd (cleanupExpiredClips 1000 s))) =
      fst (getClipInfo no_faults 2000 sample_token s).
Proof.
  intros s.
  apply (sweeping_does_not_change_reads sample_digest s no_faults 1000 2000 2000
           sample_token None).
  - reflexivity.
  - by vm_compute.
Defined.


(** An instance of X10: a clip looked at in the millisecond it expires. *)
Lemma clip_expiring_now_is_kept_but_counted_expired_witness :
  let s := snd (createClip sample_digest no_faults sample_token 0
                  (plain_options "hello") memory_store) in
  memoryClips (snd (cleanupExpiredClips 3600000 s)) !! sample_token =
    Some (sample_clip "hello" 0)
  ∧ getClipInfo no_faults 3600000 sample_token s =
      (Return (Some (info_of (sample_clip "hello" 0))), s)
  ∧ ∃ st, getStats no_faults 3600000 s = (Return st, s) ∧ 1 ≤ expiredClips st.
Proof.
  intros s.
  apply (clip_expiring_now_is_kept_but_counted_expired s no_faults sample_token
           (sample_clip "hello" 0)).
  by vm_compute.
Defined.




(** An instance of X14: a clip created with an empty password and zero
    minutes. *)
Lemma createClip_treats_falsy_options_as_absent_witness :
  let options := mkOptions "hello" None (Some 0) (Some "") None None in
  ∃ clip,
    memoryClips (snd (createClip sample_digest no_faults sample_token 0 options
                        memory_store)) !! sample_token = Some clip
    ∧ expiresAt clip = 0 + 3600000
    ∧ password clip = None
    ∧ ∀ pw, password_gate sample_digest clip pw = false.
Proof.
  intros options.
  destruct (createClip_treats_falsy_options_as_absent sample_digest memory_store no_faults
              sample_token 0 options) as (clip & Hm & Hexp & Hpw & _).
  exists clip. split; [exact Hm|].
  split; [apply Hexp; by right|]. apply Hpw. by right.
Defined.

(** An instance of X15: a production start with only [REDIS_URL] set stays
    memory-only, also after a creation. *)
Lemma initializeRedis_leaves_flag_and_client_in_agreement_witness :
  ∃ s',
    initializeRedis (Some "production") None (Some "redis://localhost:6379") ∅ false
      constructed = (Return tt, s')
    ∧ redisConnected s' = false
    ∧ coherent (snd (run sample_digest
                       [CreateClip no_faults sample_token 0 (plain_options "hello")] s')).
Proof.
  destruct (initializeRedis_leaves_flag_and_client_in_agreement sample_digest
              (Some "production") None (Some "redis://localhost:6379") ∅ false)
    as (s' & Hs' & _ & Hflag & _ & Hrun).
  exists s'. split; [exact Hs'|]. split; [exact Hflag|].
  apply Hrun. repeat constructor.
Defined.

(** An instance of X16: an error without a status, in production. *)
Lemma errorHandler_hides_internal_errors_in_production_witness :
  let err := ErrorHandler.mkError "TypeError" "cannot read properties of null"
               (Some "at getClip") None None false in
  let r := ErrorHandler.errorHandler (Some "production") "2025-01-01T00:00:00.000Z"
             err "/api/clip" in
  fst r = 500
  ∧ ErrorHandler.error (snd r) = "Something went wrong on our end"
  ∧ ErrorHandler.details (snd r) = None.
Proof.
  intros err r. split; [reflexivity|].
  apply (proj1 (proj2 (errorHandler_hides_internal_errors_in_production
                         "2025-01-01T00:00:00.000Z" err "/api/clip"))).
  reflexivity.
Defined.

(** An instance of X17: a 404 made by [createError], in production. *)
Lemma errorHandler_reports_created_errors_witness :
  let r := ErrorHandler.errorHandler (Some "production") "2025-01-01T00:00:00.000Z"
             (ErrorHandler.createError "at route" "Clip not found" (Some 404))
             "/api/clip" in
  fst r = 404 ∧ ErrorHandler.error (snd r) = "Clip not found".
Proof.
  intros r.
  destruct (errorHandler_reports_created_errors (Some "production")
              "2025-01-01T00:00:00.000Z" "at route" "Clip not found" (Some 404)
              "/api/clip") as (Hs & _ & _ & Hm).
  split; [exact Hs|]. apply Hm. intros [H _]. vm_compute in H. discriminate H.
Defined.

(** An instance of X18: a read of a Fast Tier clip while every Redis command
    raises. *)
Lemma fast_tier_hit_ignores_redis_witness :
  let s := snd (createClip sample_digest no_faults sample_token 0
                  (plain_options "hello") connected_store) in
  let r := ClipStorage.getClip sample_digest 1000 sample_token None (memoryClips s) in
  fst (getClip sample_digest (mkFaults true true true true) 1000 1000 sample_token None s) =
    Return (fst r)
  ∧ memoryClips (snd (getClip sample_digest (mkFaults true true true true) 1000 1000
                        sample_token None s)) = snd r.
Proof.
  intros s.
  apply (proj1 (fast_tier_hit_ignores_redis sample_digest s (mkFaults true true true true)
                  sample_token (sample_clip "hello" 0) ltac:(by vm_compute))).
Defined.

(** C8, as stated, fails: with [expirationMinutes = 144000000001] at the
    epoch, [expiresAt] is one minute past the largest valid date, and
    [createClip] raises from its log line whatever Redis does; the Fast Tier
    already holds the clip. *)
Lemma createClip_raises_on_invalid_expiry :
  let options := mkOptions "hello" None (Some 144000000001) None None None in
  let r := Dated.createClip sample_digest no_faults sample_token 0 options connected_store in
  Dated.valid_date (0 + number_or (opt_expirationMinutes options) 60 * 60 * 1000) = false
  ∧ fst r = Throw "RangeError: Invalid time value"
  ∧ is_Some (memoryClips (snd r) !! sample_token).
Proof. vm_compute. repeat split. by eexists. Qed.

(** An instance of C8: a creation at the epoch while every Redis command
    raises. *)
Lemma createClip_swallows_mirror_failures_witness :
  let options := plain_options "hello" in
  let flt := mkFaults true true true true in
  valid_options options = true
  ∧ ∃ s',
      Dated.createClip sample_digest flt sample_token 0 options connected_store =
        (Return (sample_token,
                 0 + number_or (opt_expirationMinutes options) 60 * 60 * 1000), s')
      ∧ memoryClips s' !! sample_token = Some (new_clip sample_digest sample_token 0 options)
      ∧ memoryClips s' =
          <[sample_token := new_clip sample_digest sample_token 0 options]>
            (memoryClips connected_store)
      ∧ (if setex_fails flt then redis s' = redis connected_store
         else if redis_ready connected_store
              then durable s' sample_token =
                     Some (new_clip sample_digest sample_token 0 options)
              else redis s' = redis connected_store).
Proof.
  intros options flt. split; [reflexivity|].
  destruct (createClip_swallows_mirror_failures sample_digest connected_store flt
              sample_token 0 options) as [Hvalid Hcreate].
  destruct (Hvalid eq_refl ltac:(lia)) as [Hnow Hexp].
  exact (Hcreate Hnow Hexp).
Defined.

(** An instance of X19: a peek with every Redis command raising, and a
    creation whose expiry is out of range. *)
Lemma calls_raise_only_on_invalid_expiry_witness :
  fst (step sample_digest (GetClipInfo (mkFaults true true true true) 1000 sample_token)
         durable_only_store) ≠ Raised "get"
  ∧ fst (Dated.createClip sample_digest no_faults sample_token 0
           (mkOptions "hello" None (Some 144000000001) None None None) connected_store) =
      Throw "RangeError: Invalid time value".
Proof.
  destruct (calls_raise_only_on_invalid_expiry sample_digest) as [Hcalls Hcreate].
  split.
  - apply Hcalls. reflexivity.
  - exact (proj1 (Hcreate no_faults sample_token 0
                    (mkOptions "hello" None (Some 144000000001) None None None)
                    connected_store eq_refl)).
Defined.
